(** * Splitfin UI audit: a shallow embedding of [ui_audit.py]

    The script drives a browser through the Playwright synchronous API:
    it logs in, visits the routes of [PAGES], waits for each page to
    settle, takes a screenshot, runs a DOM query in the page and dumps the
    collected dictionaries as one JSON report.

    The development has three layers.
    - [JS]: the string operations the in-page script relies on
      ([substring], [replace(/\n+/g, '\n')], [trim], [slice]) on strings
      of UTF-16 code units.
    - [Dom] and [capture_structure]: the document the query runs against
      and the query itself.
    - The Python side.  Every call into the driver is recorded in a
      trace together with the exception it raised, if any; what the driver
      answers is given by an environment that sees the whole history, so a
      statement quantified over environments covers every behaviour of the
      browser and of the site.  [try]/[except Exception], [with] and the
      [for] loop are combinators of a state-and-exception monad.

    Conventions.  Exceptions are instances of Python's [Exception] (what
    Playwright raises); [print] writes to standard output only, is taken
    not to raise and is not part of the state; the [os.makedirs] at module
    level runs before [main] and is left out. *)

From Stdlib Require Import List String Ascii NArith ZArith Bool Arith Lia.
Import ListNotations.

Local Open Scope string_scope.
Local Open Scope list_scope.

#[local] Set Warnings "-register-all".

(* ================================================================== *)
(** * JavaScript strings *)
(* ================================================================== *)

Module JS.

(** A JavaScript string is a sequence of UTF-16 code units; [length]
    counts code units. *)
Definition code_unit := N.
Definition jsstring := list code_unit.

Definition lit (s : string) : jsstring :=
  map N_of_ascii (list_ascii_of_string s).

Definition length (s : jsstring) : nat := List.length s.

Definition LF : code_unit := 10%N.
Definition is_lf (c : code_unit) : bool := N.eqb c LF.

(** [s.substring(0, n)] *)
Definition substring0 (n : nat) (s : jsstring) : jsstring := firstn n s.

(** [s.replace(/\n+/g, '\n')]: every maximal run of line feeds is
    replaced by one line feed. *)
Fixpoint replace_lf_runs (s : jsstring) : jsstring :=
  match s with
  | [] => []
  | c :: rest =>
      if is_lf c then
        match rest with
        | c' :: _ => if is_lf c' then replace_lf_runs rest
                     else c :: replace_lf_runs rest
        | [] => [c]
        end
      else c :: replace_lf_runs rest
  end.

(** ECMAScript [WhiteSpace] and [LineTerminator] code points, the set
    [String.prototype.trim] strips. *)
Definition is_space (c : code_unit) : bool :=
  ((9 <=? c) && (c <=? 13) || (c =? 32) || (c =? 160) || (c =? 5760)
   || (8192 <=? c) && (c <=? 8202) || (c =? 8232) || (c =? 8233)
   || (c =? 8239) || (c =? 8287) || (c =? 12288) || (c =? 65279))%N.

Fixpoint trim_start (s : jsstring) : jsstring :=
  match s with
  | [] => []
  | c :: rest => if is_space c then trim_start rest else s
  end.

Fixpoint trim_end (s : jsstring) : jsstring :=
  match s with
  | [] => []
  | c :: rest =>
      match trim_end rest with
      | [] => if is_space c then [] else [c]
      | kept => c :: kept
      end
  end.

(** [s.trim()] *)
Definition trim (s : jsstring) : jsstring := trim_end (trim_start s).

(** [xs.slice(0, n)] on an array *)
Definition slice0 {A} (n : nat) (xs : list A) : list A := firstn n xs.

Fixpoint starts_with (p s : jsstring) : bool :=
  match p, s with
  | [], _ => true
  | a :: p', b :: s' => N.eqb a b && starts_with p' s'
  | _ :: _, [] => false
  end.

(** [s.includes(sub)]; also the attribute selector [[a*="sub"]]. *)
Fixpoint includes (sub s : jsstring) : bool :=
  starts_with sub s ||
  match s with
  | [] => false
  | _ :: s' => includes sub s'
  end.

Fixpoint eqb (s t : jsstring) : bool :=
  match s, t with
  | [], [] => true
  | a :: s', b :: t' => N.eqb a b && eqb s' t'
  | _, _ => false
  end.

(** Adjacent line feeds, as a boolean scan. *)
Fixpoint has_adjacent_lf (s : jsstring) : bool :=
  match s with
  | c :: (c' :: _) as rest => (is_lf c && is_lf c') || has_adjacent_lf rest
  | _ => false
  end.

(** No two adjacent line feeds anywhere in the string. *)
Definition no_adjacent_lf (s : jsstring) : Prop :=
  forall a b, s <> a ++ LF :: LF :: b.

End JS.

Import JS.

(* ================================================================== *)
(** * The document the query runs against *)
(* ================================================================== *)

Module Dom.

(** An element: its lower-case local name, its attributes, the text the
    browser renders for it ([innerText]) and its child elements. *)
Inductive Element : Type :=
| elem (localName : jsstring)
       (attrs : list (jsstring * jsstring))
       (innerText : jsstring)
       (children : list Element).

Definition localName (e : Element) : jsstring :=
  match e with elem n _ _ _ => n end.
Definition attrs (e : Element) : list (jsstring * jsstring) :=
  match e with elem _ a _ _ => a end.
Definition innerText (e : Element) : jsstring :=
  match e with elem _ _ t _ => t end.
Definition children (e : Element) : list Element :=
  match e with elem _ _ _ c => c end.

(** [e.getAttribute(name)], [None] for JavaScript's [null]. *)
Fixpoint getAttribute_in (name : jsstring) (l : list (jsstring * jsstring))
  : option jsstring :=
  match l with
  | [] => None
  | (k, v) :: l' => if JS.eqb k name then Some v else getAttribute_in name l'
  end.
Definition getAttribute (name : jsstring) (e : Element) : option jsstring :=
  getAttribute_in name (attrs e).

Definition upper_unit (c : code_unit) : code_unit :=
  if ((97 <=? c) && (c <=? 122))%N then (c - 32)%N else c.
(** [e.tagName] of an HTML element: the local name in upper case. *)
Definition tagName (e : Element) : jsstring := map upper_unit (localName e).

Record Document : Type := {
  doc_title : jsstring;                (* document.title *)
  location_href : jsstring;            (* window.location.href *)
  body_innerText : option jsstring;    (* None when document.body is null *)
  roots : list Element                 (* the element tree, document order *)
}.

(** Every element of the tree in document order, each with the chain of
    its ancestors (nearest first). *)
Fixpoint walk (anc : list Element) (e : Element)
  : list (list Element * Element) :=
  match e with
  | elem _ _ _ cs => (anc, e) :: flat_map (walk (e :: anc)) cs
  end.

Definition all_elements (d : Document) : list (list Element * Element) :=
  flat_map (walk []) (roots d).

(** Simple selectors used by the script. *)
Definition has_tag (t : string) (e : Element) : bool :=
  JS.eqb (localName e) (lit t).
Definition attr_is (a v : string) (e : Element) : bool :=
  match getAttribute (lit a) e with
  | Some x => JS.eqb x (lit v)
  | None => false
  end.
Definition attr_has (a v : string) (e : Element) : bool :=
  match getAttribute (lit a) e with
  | Some x => includes (lit v) x
  | None => false
  end.
Definition has_attr (a : string) (e : Element) : bool :=
  match getAttribute (lit a) e with Some _ => true | None => false end.

(** [document.querySelectorAll(sel)] for a selector that looks at one
    element only. *)
Definition querySelectorAll (sel : Element -> bool) (d : Document)
  : list Element :=
  map snd (filter (fun p => sel (snd p)) (all_elements d)).

(** [document.querySelectorAll("A a, B a, ...")]: anchors below an
    element matching [anc_sel]. *)
Definition querySelectorAll_below (anc_sel : Element -> bool)
           (sel : Element -> bool) (d : Document) : list Element :=
  map snd (filter (fun p => sel (snd p) && existsb anc_sel (fst p))
                  (all_elements d)).

End Dom.

Import Dom.

(* ================================================================== *)
(** * [capture_structure]: the in-page query *)
(* ================================================================== *)

Record Heading : Type := { h_tag : jsstring; h_text : jsstring }.

Record SidebarItem : Type := { sb_text : jsstring; sb_href : option jsstring }.

Record Elements : Type := {
  forms : nat; tables : nat; buttons : nat; inputs : nat; cards : nat;
  modals : nat; links : nat; images : nat; headings : list Heading
}.

(** The object the query returns. *)
Record Structure : Type := {
  title : jsstring;
  url : jsstring;
  textSummary : jsstring;
  elements : Elements;
  buttonLabels : list jsstring;
  sidebarItems : list SidebarItem
}.

Definition sel_or (p q : Element -> bool) (e : Element) : bool := p e || q e.
Infix "|||" := sel_or (at level 50, left associativity).

(** ['button, [role="button"], input[type="submit"]'] *)
Definition sel_buttons_counted : Element -> bool :=
  has_tag "button" ||| attr_is "role" "button"
  ||| (fun e => has_tag "input" e && attr_is "type" "submit" e).

(** ['button, [role="button"]'] *)
Definition sel_buttons_labelled : Element -> bool :=
  has_tag "button" ||| attr_is "role" "button".

Definition sel_sidebar_ancestor : Element -> bool :=
  has_tag "nav" ||| attr_has "class" "sidebar" ||| attr_has "class" "Sidebar"
  ||| attr_has "class" "nav".

(** [bodyText.substring(0, 2000).replace(/\n+/g, '\n').trim()] *)
Definition text_summary_of (bodyText : jsstring) : jsstring :=
  trim (replace_lf_runs (substring0 2000 bodyText)).

(** [.map(b => b.innerText.trim())
     .filter(t => t.length > 0 && t.length < 80).slice(0, 30)] *)
Definition label_ok (t : jsstring) : bool :=
  (0 <? JS.length t)%nat && (JS.length t <? 80)%nat.

Definition button_labels_of (els : list Element) : list jsstring :=
  slice0 30 (filter label_ok (map (fun b => trim (innerText b)) els)).


Definition capture_structure (d : Document) : Structure :=
  let bodyText := match body_innerText d with
                  | Some t => t
                  | None => []
                  end in
  let count sel := List.length (querySelectorAll sel d) in
  {| title := doc_title d;
     url := location_href d;
     textSummary := text_summary_of bodyText;
     elements :=
       {| forms := count (has_tag "form");
          tables := count (has_tag "table");
          buttons := count sel_buttons_counted;
          inputs := count (has_tag "input" ||| has_tag "textarea"
                           ||| has_tag "select");
          cards := count (attr_has "class" "card" ||| attr_has "class" "Card");
          modals := count (attr_has "class" "modal" ||| attr_has "class" "Modal"
                           ||| attr_is "role" "dialog");
          links := count (fun e => has_tag "a" e && has_attr "href" e);
          images := count (has_tag "img");
          headings :=
            map (fun h => {| h_tag := tagName h;
                             h_text := substring0 120 (innerText h) |})
                (querySelectorAll (has_tag "h1" ||| has_tag "h2"
                                   ||| has_tag "h3" ||| has_tag "h4") d) |};
     buttonLabels := button_labels_of (querySelectorAll sel_buttons_labelled d);
     sidebarItems :=
       filter (fun a => negb (JS.length (sb_text a) =? 0)%nat)
              (map (fun a => {| sb_text := substring0 60 (trim (innerText a));
                                sb_href := getAttribute (lit "href") a |})
                   (querySelectorAll_below sel_sidebar_ancestor
                                           (has_tag "a") d)) |}.

(** A page whose only control is a submit input that shows the text Go. *)
Definition submit_only_document : Document :=
  {| doc_title := lit "Sign in";
     location_href := lit "https://splitfin.co.uk/login";
     body_innerText := Some (lit "Go");
     roots := [ elem (lit "input") [ (lit "type", lit "submit") ]
                     (lit "Go") [] ] |}.

(* ================================================================== *)
(** * The Python side *)
(* ================================================================== *)

(** ** Strings, exceptions, dictionaries *)

Fixpoint py_startswith (p s : string) : bool :=
  match p, s with
  | EmptyString, _ => true
  | String a p', String b s' => Ascii.eqb a b && py_startswith p' s'
  | String _ _, EmptyString => false
  end.

(** [sub in s] *)
Fixpoint py_in (sub s : string) : bool :=
  py_startswith sub s ||
  match s with
  | EmptyString => false
  | String _ s' => py_in sub s'
  end.

(** An exception instance: its class and what [str(e)] gives. *)
Record PyException : Type := { exc_class : string; exc_str : string }.

(** The values the script stores in a result dictionary. *)
Inductive Value : Type :=
| VStr (s : string)              (* a str built by the script *)
| VText (t : jsstring)           (* a string that came back from the page *)
| VElements (e : Elements)
| VLabels (l : list jsstring)
| VItems (l : list SidebarItem).

(** A dictionary with string keys, in insertion order. *)
Definition Dict := list (string * Value).

Fixpoint dict_get (k : string) (d : Dict) : option Value :=
  match d with
  | [] => None
  | (k', v) :: d' => if String.eqb k' k then Some v else dict_get k d'
  end.

(** [k in d] *)
Definition has_key (k : string) (d : Dict) : bool :=
  match dict_get k d with Some _ => true | None => false end.

(** ** Configuration *)

Record TargetRoute : Type := { pg_path : string; pg_name : string }.

Record Viewport : Type := { width : Z; height : Z }.

Definition SITE := "https://splitfin.co.uk".
Definition SCREENSHOTS_DIR := "./screenshots".
Definition VIEWPORT := {| width := 1440; height := 900 |}.
Definition REPORT_FILE := "./screenshots/ui_audit_report.json".
Definition USER_AGENT :=
  "Mozilla/5.0 (Macintosh; Intel Mac OS X 10_15_7) AppleWebKit/537.36".

(** ['button[type="submit"]'] *)
Definition SUBMIT_BUTTON :=
  let q := String (ascii_of_nat 34) EmptyString in
  ("button[type=" ++ q ++ "submit" ++ q ++ "]")%string.

Definition PAGES : list TargetRoute :=
  [ {| pg_path := "/dashboard";          pg_name := "01-dashboard" |};
    {| pg_path := "/orders";             pg_name := "02-orders" |};
    {| pg_path := "/order/10130";        pg_name := "03-order-detail" |};
    {| pg_path := "/customers";          pg_name := "04-customers" |};
    {| pg_path := "/customers/1";        pg_name := "05-customer-detail" |};
    {| pg_path := "/enquiries";          pg_name := "06-enquiries" |};
    {| pg_path := "/inventory/products"; pg_name := "07-products" |};
    {| pg_path := "/settings/general";   pg_name := "08-settings" |} ].

Record Report : Type := {
  r_site : string;
  r_viewport : Viewport;
  r_timestamp : string;
  r_pages : list Dict
}.

(** ** Calls into the outside world *)

Inductive Call : Type :=
| PlaywrightEnter                                  (* entering [with sync_playwright()] *)
| PlaywrightExit                                   (* leaving it: the driver is stopped *)
| Launch (headless : bool)                         (* p.chromium.launch *)
| NewContext (viewport : Viewport) (user_agent : string)
| NewPage
| Goto (target wait_until : string) (timeout : Z)  (* page.goto *)
| WaitForLoadState (state : string) (timeout : Z)
| WaitForTimeout (ms : Z)
| Screenshot (file : string) (full_page : bool)
| Fill (selector value : string)
| Click (selector : string)
| Evaluate                                         (* page.evaluate of the query *)
| BrowserClose
| OpenW (file : string)                            (* open(file, 'w') *)
| JsonDump (report : Report)                       (* json.dump(report, f, indent=2) *)
| FileClose.                                       (* leaving [with open(...)] *)

(** One call as it happened: what was called and what it raised. *)
Record Event : Type := { ev_call : Call; ev_raised : option PyException }.

Definition ok (c : Call) : Event := {| ev_call := c; ev_raised := None |}.
Definition failed (c : Call) (e : PyException) : Event :=
  {| ev_call := c; ev_raised := Some e |}.

(** The outside world: after a given history, does this call raise, what
    is [page.url], which document does the page show, what time is it. *)
Record Env : Type := {
  raises : list Event -> Call -> option PyException;
  page_url : list Event -> string;
  document : list Event -> Document;
  strftime : list Event -> string
}.

(** ** State and control *)

Record State : Type := {
  trace : list Event;        (* every call so far, oldest first *)
  results : list Dict        (* the list [results] of [main] *)
}.

Definition initial : State := {| trace := []; results := [] |}.

Inductive Outcome (A : Type) : Type :=
| Returned (a : A)
| Raised (e : PyException).
Arguments Returned {A} a.
Arguments Raised {A} e.

Definition M (A : Type) : Type := State -> State * Outcome A.

Definition ret {A} (a : A) : M A := fun st => (st, Returned a).

Definition bind {A B} (m : M A) (k : A -> M B) : M B := fun st =>
  match m st with
  | (st', Returned a) => k a st'
  | (st', Raised e) => (st', Raised e)
  end.

Notation "x <- m ;; k" := (bind m (fun x => k))
  (at level 61, m at next level, right associativity).
Notation "m ;; k" := (bind m (fun _ => k))
  (at level 61, right associativity).

(** [try: body / except Exception as e: handler e] *)
Definition try_except {A} (body : M A) (handler : PyException -> M A) : M A :=
  fun st =>
    match body st with
    | (st', Returned a) => (st', Returned a)
    | (st', Raised e) => handler e st'
    end.

(** [try: body / except Exception: pass] *)
Definition try_pass (body : M unit) : M unit :=
  try_except body (fun _ => ret tt).

(** [with <manager>: body]: the exit runs however the body ends; an
    exception of the body goes on after it. *)
Definition with_ {A} (enter exit : M unit) (body : M A) : M A := fun st =>
  match enter st with
  | (st1, Raised e) => (st1, Raised e)
  | (st1, Returned _) =>
      match body st1 with
      | (st2, r) =>
          match exit st2 with
          | (st3, Raised e) => (st3, Raised e)
          | (st3, Returned _) => (st3, r)
          end
      end
  end.

Fixpoint for_each {A} (xs : list A) (body : A -> M unit) : M unit :=
  match xs with
  | [] => ret tt
  | x :: xs' => body x ;; for_each xs' body
  end.

Definition record (st : State) (ev : Event) : State :=
  {| trace := trace st ++ [ev]; results := results st |}.

Section Script.

Variable env : Env.

(** A call into the driver: logged, and raising when the world says so. *)
Definition call (c : Call) : M unit := fun st =>
  match raises env (trace st) c with
  | None => (record st (ok c), Returned tt)
  | Some e => (record st (failed c e), Raised e)
  end.

(** [page.url] *)
Definition get_url : M string := fun st =>
  (st, Returned (page_url env (trace st))).

(** [time.strftime('%Y-%m-%d %H:%M:%S')] *)
Definition now : M string := fun st =>
  (st, Returned (strftime env (trace st))).

(** [results = []] and [results.append(d)] *)
Definition set_results (l : list Dict) : M unit := fun st =>
  ({| trace := trace st; results := l |}, Returned tt).
Definition append_result (d : Dict) : M unit := fun st =>
  ({| trace := trace st; results := results st ++ [d] |}, Returned tt).
Definition get_results : M (list Dict) := fun st =>
  (st, Returned (results st)).

(** ** The script *)

Definition wait_stable (timeout : Z) : M unit :=
  try_pass (call (WaitForLoadState "networkidle" timeout)) ;;
  try_pass (call (WaitForLoadState "domcontentloaded" 5000)) ;;
  call (WaitForTimeout 2000).

(** [page.evaluate(...)] of [capture_structure]: the query runs against
    the document the page shows. *)
Definition capture_structure_page : M Structure :=
  call Evaluate ;;
  fun st => (st, Returned (capture_structure (document env (trace st)))).

Definition login : M string :=
  call (Goto SITE "domcontentloaded" 30000) ;;
  wait_stable 10000 ;;
  call (Screenshot (SCREENSHOTS_DIR ++ "/00-login.png")%string true) ;;
  call (Fill "#agentId" "matt") ;;
  call (Fill "#pin" "1234") ;;
  call (Click SUBMIT_BUTTON) ;;
  wait_stable 15000 ;;
  call (WaitForTimeout 2000) ;;
  get_url.

Definition success_entry (pg : TargetRoute) (actual_url screenshot_path : string)
           (s : Structure) : Dict :=
  [ ("name", VStr (pg_name pg));
    ("intended_path", VStr (pg_path pg));
    ("actual_url", VStr actual_url);
    ("screenshot", VStr screenshot_path);
    ("title", VText (title s));
    ("text_summary", VText (textSummary s));
    ("elements", VElements (elements s));
    ("button_labels", VLabels (buttonLabels s));
    ("sidebar_items", VItems (sidebarItems s)) ].

Definition failure_entry (pg : TargetRoute) (e : PyException) : Dict :=
  [ ("name", VStr (pg_name pg));
    ("intended_path", VStr (pg_path pg));
    ("error", VStr (exc_str e)) ].

Definition route_url (pg : TargetRoute) : string :=
  (SITE ++ pg_path pg)%string.
Definition screenshot_path (pg : TargetRoute) : string :=
  (SCREENSHOTS_DIR ++ "/" ++ pg_name pg ++ ".png")%string.

(** The script's test for a login surface: ['login' in url]. *)
Definition login_surface (u : string) : bool := py_in "login" u.

(** Session loss: the page is on a login URL though the route is not one. *)
Definition session_lost (actual : string) (pg : TargetRoute) : bool :=
  login_surface actual && negb (login_surface (pg_path pg)).

(** The body of the [try] of one iteration. *)
Definition visit (pg : TargetRoute) : M unit :=
  call (Goto (route_url pg) "domcontentloaded" 20000) ;;
  wait_stable 10000 ;;
  actual <- get_url ;;
  (if session_lost actual pg then
     login ;;
     call (Goto (route_url pg) "domcontentloaded" 20000) ;;
     wait_stable 10000
   else ret tt) ;;
  call (Screenshot (screenshot_path pg) true) ;;
  s <- capture_structure_page ;;
  u <- get_url ;;
  append_result (success_entry pg u (screenshot_path pg) s).

(** One iteration of the loop over the routes. *)
Definition process_route (pg : TargetRoute) : M unit :=
  try_except (visit pg) (fun e => append_result (failure_entry pg e)).

Definition write_report (report : Report) : M unit :=
  with_ (call (OpenW REPORT_FILE)) (call FileClose) (call (JsonDump report)).

(** The body of [with sync_playwright() as p:], for any list of routes. *)
Definition session (routes : list TargetRoute) : M unit :=
  call (Launch true) ;;
  call (NewContext VIEWPORT USER_AGENT) ;;
  call NewPage ;;
  login ;;
  set_results [] ;;
  for_each routes process_route ;;
  ts <- now ;;
  pages <- get_results ;;
  write_report {| r_site := SITE; r_viewport := VIEWPORT;
                  r_timestamp := ts; r_pages := pages |} ;;
  call BrowserClose.

(** [main], for any list of routes. *)
Definition audit (routes : list TargetRoute) : M unit :=
  with_ (call PlaywrightEnter) (call PlaywrightExit) (session routes).

Definition main : M unit := audit PAGES.

End Script.


(* ================================================================== *)
(** * Straight-line scripts of driver calls *)
(* ================================================================== *)

(** A step is a call whose exception goes on to the caller ([Must]) or a
    call inside [try: ... except Exception: pass] ([Try]). *)
Inductive Step : Type :=
| Must (c : Call)
| Try (c : Call).

Definition step_call (s : Step) : Call :=
  match s with Must c => c | Try c => c end.

(** The event a call produces after history [h]. *)
Definition happened (env : Env) (h : list Event) (c : Call) : Event :=
  {| ev_call := c; ev_raised := raises env h c |}.

(** Running a script after history [h]: the events it adds and the
    exception that ended it, if one did. *)
Fixpoint run_steps (env : Env) (h : list Event) (steps : list Step)
  : list Event * option PyException :=
  match steps with
  | [] => ([], None)
  | s :: rest =>
      let ev := happened env h (step_call s) in
      match s, ev_raised ev with
      | Must _, Some e => ([ev], Some e)
      | _, _ =>
          let (evs, r) := run_steps env (h ++ [ev]) rest in (ev :: evs, r)
      end
  end.

(** The same script as a computation. *)
Fixpoint exec (env : Env) (steps : list Step) : M unit :=
  match steps with
  | [] => ret tt
  | Must c :: rest => call env c ;; exec env rest
  | Try c :: rest => try_pass (call env c) ;; exec env rest
  end.

Definition after (st : State) (evs : list Event) : State :=
  {| trace := trace st ++ evs; results := results st |}.

Definition outcome_of (r : option PyException) : Outcome unit :=
  match r with None => Returned tt | Some e => Raised e end.

(** The calls of [wait_stable], of [login] and of one route. *)
Definition wait_stable_steps (timeout : Z) : list Step :=
  [ Try (WaitForLoadState "networkidle" timeout);
    Try (WaitForLoadState "domcontentloaded" 5000);
    Must (WaitForTimeout 2000) ].

Definition login_steps : list Step :=
  Must (Goto SITE "domcontentloaded" 30000)
  :: wait_stable_steps 10000
  ++ [ Must (Screenshot (SCREENSHOTS_DIR ++ "/00-login.png")%string true);
       Must (Fill "#agentId" "matt");
       Must (Fill "#pin" "1234");
       Must (Click SUBMIT_BUTTON) ]
  ++ wait_stable_steps 15000
  ++ [ Must (WaitForTimeout 2000) ].

Definition arrive_steps (pg : TargetRoute) : list Step :=
  Must (Goto (route_url pg) "domcontentloaded" 20000) :: wait_stable_steps 10000.

Definition extract_steps (pg : TargetRoute) : list Step :=
  [ Must (Screenshot (screenshot_path pg) true); Must Evaluate ].

(** A visit without session loss, and a visit with one recovery. *)
Definition plain_steps (pg : TargetRoute) : list Step :=
  arrive_steps pg ++ extract_steps pg.

Definition recovery_steps (pg : TargetRoute) : list Step :=
  arrive_steps pg ++ login_steps ++ arrive_steps pg ++ extract_steps pg.

(** What a successful visit does after its last driver call: read the
    query's answer and [page.url], append the success dictionary. *)
Definition finish (env : Env) (pg : TargetRoute) : M unit :=
  s <- (fun st => (st, Returned (capture_structure (document env (trace st))))) ;;
  u <- get_url env ;;
  append_result (success_entry pg u (screenshot_path pg) s).

(** The script of one route after history [h]: with one recovery when the
    session is found lost on arrival, plain otherwise. *)
Definition route_steps (env : Env) (h : list Event) (pg : TargetRoute)
  : list Step :=
  let arrived := fst (run_steps env h (arrive_steps pg)) in
  if session_lost (page_url env (h ++ arrived)) pg
  then recovery_steps pg
  else plain_steps pg.

Definition route_events (env : Env) (h : list Event) (pg : TargetRoute)
  : list Event :=
  fst (run_steps env h (route_steps env h pg)).

(** The dictionary one route adds to [results]. *)
Definition route_entry (env : Env) (h : list Event) (pg : TargetRoute) : Dict :=
  let h' := h ++ route_events env h pg in
  match snd (run_steps env h (route_steps env h pg)) with
  | None => success_entry pg (page_url env h') (screenshot_path pg)
                          (capture_structure (document env h'))
  | Some e => failure_entry pg e
  end.

(** The events and the dictionaries of the whole loop. *)
Fixpoint crawl_events (env : Env) (h : list Event) (routes : list TargetRoute)
  : list Event :=
  match routes with
  | [] => []
  | pg :: rest =>
      route_events env h pg
      ++ crawl_events env (h ++ route_events env h pg) rest
  end.

Fixpoint crawl_entries (env : Env) (h : list Event) (routes : list TargetRoute)
  : list Dict :=
  match routes with
  | [] => []
  | pg :: rest =>
      route_entry env h pg
      :: crawl_entries env (h ++ route_events env h pg) rest
  end.

(** The calls from the launch of the browser to the end of the first
    login. *)
Definition launch_steps : list Step :=
  [ Must (Launch true); Must (NewContext VIEWPORT USER_AGENT); Must NewPage ].

Definition opening_steps : list Step := launch_steps ++ login_steps.

(** Writing the report after history [h]: [open], then [json.dump], then
    the file is closed however the dump ended. *)
Definition write_run (env : Env) (h : list Event) (report : Report)
  : list Event * option PyException :=
  let e_open := happened env h (OpenW REPORT_FILE) in
  match ev_raised e_open with
  | Some e => ([e_open], Some e)
  | None =>
      let e_dump := happened env (h ++ [e_open]) (JsonDump report) in
      let e_close := happened env (h ++ [e_open; e_dump]) FileClose in
      ([e_open; e_dump; e_close],
       match ev_raised e_close with
       | Some e => Some e
       | None => ev_raised e_dump
       end)
  end.

(** The report assembled after the loop that started at history [h]. *)
Definition report_of (env : Env) (h : list Event) (routes : list TargetRoute)
  : Report :=
  {| r_site := SITE; r_viewport := VIEWPORT;
     r_timestamp := strftime env (h ++ crawl_events env h routes);
     r_pages := crawl_entries env h routes |}.

(** The loop, the report and [browser.close()], after history [h]. *)
Definition crawl_and_report (env : Env) (h : list Event)
           (routes : list TargetRoute) : list Event * option PyException :=
  let h' := h ++ crawl_events env h routes in
  let w := write_run env h' (report_of env h routes) in
  match snd w with
  | Some e => (crawl_events env h routes ++ fst w, Some e)
  | None =>
      let e_close := happened env (h' ++ fst w) BrowserClose in
      (crawl_events env h routes ++ fst w ++ [e_close], ev_raised e_close)
  end.

(** Is a browser session open after this history?  A launch opens one;
    [browser.close()] releases it, and so does leaving the Playwright
    scope, which stops the driver and the browser it launched. *)
Definition session_step (open : bool) (ev : Event) : bool :=
  match ev_call ev, ev_raised ev with
  | Launch _, None => true
  | BrowserClose, None => false
  | PlaywrightExit, _ => false
  | _, _ => open
  end.

Definition session_open (h : list Event) : bool :=
  fold_left session_step h false.

(** The reports that [json.dump] wrote in full during a history. *)
Definition dumped (ev : Event) : option Report :=
  match ev_call ev, ev_raised ev with
  | JsonDump r, None => Some r
  | _, _ => None
  end.

Fixpoint reports_dumped (h : list Event) : list Report :=
  match h with
  | [] => []
  | ev :: h' =>
      match dumped ev with
      | Some r => r :: reports_dumped h'
      | None => reports_dumped h'
      end
  end.

(** Calls on the browser, its context or its page, as opposed to the
    Playwright scope, [browser.close()] and the report file. *)
Definition is_page_call (c : Call) : bool :=
  match c with
  | Launch _ | NewContext _ _ | NewPage | Goto _ _ _ | WaitForLoadState _ _
  | WaitForTimeout _ | Screenshot _ _ | Fill _ _ | Click _ | Evaluate => true
  | PlaywrightEnter | PlaywrightExit | BrowserClose | OpenW _ | JsonDump _
  | FileClose => false
  end.

Definition page_event (ev : Event) : Prop := is_page_call (ev_call ev) = true.

(** Calls that only the processing of a route or the report make. *)
Definition is_route_or_report_call (c : Call) : bool :=
  match c with
  | Goto _ _ timeout => (timeout =? 20000)%Z
  | Evaluate | OpenW _ | JsonDump _ | FileClose => true
  | _ => false
  end.

(** The two variants of a result dictionary, by the keys present. *)
Definition summary_keys : list string :=
  [ "actual_url"; "screenshot"; "title"; "text_summary"; "elements";
    "button_labels"; "sidebar_items" ].

Definition is_success (d : Dict) : bool :=
  forallb (fun k => has_key k d) summary_keys && negb (has_key "error" d).

Definition is_failure (d : Dict) : bool :=
  has_key "error" d && forallb (fun k => negb (has_key k d)) summary_keys.

(** C2 as stated, for one dictionary: success fields and no error, or a
    non-empty error string and no success field. *)
Definition variant_as_specified (d : Dict) : Prop :=
  (is_success d = true /\ is_failure d = false)
  \/ (is_failure d = true /\ is_success d = false
      /\ exists msg, dict_get "error" d = Some (VStr msg) /\ msg <> "").

(** Computations that agree on every state. *)
Definition meq {A} (m m' : M A) : Prop := forall st, m st = m' st.
Infix "=~" := meq (at level 70, no associativity).

(* ================================================================== *)
(** * Sample worlds *)
(* ================================================================== *)

Definition timeout_error (msg : string) : PyException :=
  {| exc_class := "TimeoutError"; exc_str := msg |}.

Definition sample_document : Document :=
  {| doc_title := lit "Splitfin";
     location_href := lit "https://splitfin.co.uk/dashboard";
     body_innerText := Some (lit "Dashboard");
     roots :=
       [ elem (lit "nav") []
              (lit "Orders")
              [ elem (lit "a") [ (lit "href", lit "/orders") ] (lit "Orders") [] ];
         elem (lit "h1") [] (lit "Dashboard") [];
         elem (lit "button") [] (lit " New order ") [] ] |}.

(** Nothing ever raises and the session is never lost. *)
Definition calm : Env :=
  {| raises := fun _ _ => None;
     page_url := fun _ => "https://splitfin.co.uk/dashboard";
     document := fun _ => sample_document;
     strftime := fun _ => "2026-01-05 09:00:00" |}.

(** The two routes of the end-to-end scenarios. *)
Definition dashboard : TargetRoute :=
  {| pg_path := "/dashboard"; pg_name := "01-dashboard" |}.
Definition orders : TargetRoute :=
  {| pg_path := "/orders"; pg_name := "02-orders" |}.
Definition two_routes : list TargetRoute := [dashboard; orders].


(** Navigation to the dashboard fails; everything else works. *)
Definition dashboard_down : Env :=
  {| raises := fun _ c =>
       match c with
       | Goto target _ _ =>
           if String.eqb target "https://splitfin.co.uk/dashboard"
           then Some {| exc_class := "Error";
                        exc_str := "Page.goto: net::ERR_CONNECTION_REFUSED" |}
           else None
       | _ => None
       end;
     page_url := fun _ => "https://splitfin.co.uk/orders";
     document := fun _ => sample_document;
     strftime := fun _ => "2026-01-05 09:00:00" |}.

(** The query raises an exception that carries no message, as a bare
    [assert] inside a library does. *)
Definition silent_failure : Env :=
  {| raises := fun _ c =>
       match c with
       | Evaluate => Some {| exc_class := "AssertionError"; exc_str := "" |}
       | _ => None
       end;
     page_url := fun _ => "https://splitfin.co.uk/dashboard";
     document := fun _ => sample_document;
     strftime := fun _ => "2026-01-05 09:00:00" |}.

(** The site is unreachable from the start. *)
Definition site_down : Env :=
  {| raises := fun _ c =>
       match c with
       | Goto _ _ _ =>
           Some (timeout_error "Page.goto: Timeout 30000ms exceeded.")
       | _ => None
       end;
     page_url := fun _ => "about:blank";
     document := fun _ => sample_document;
     strftime := fun _ => "2026-01-05 09:00:00" |}.

(** A page that keeps a connection open: both load-state waits time
    out, every other call works. *)
Definition polling_site : Env :=
  {| raises := fun _ c =>
       match c with
       | WaitForLoadState _ _ =>
           Some (timeout_error "Page.wait_for_load_state: Timeout exceeded.")
       | _ => None
       end;
     page_url := fun _ => "https://splitfin.co.uk/dashboard";
     document := fun _ => sample_document;
     strftime := fun _ => "2026-01-05 09:00:00" |}.

(** Has the login form been submitted in this history? *)
Definition signed_in (h : list Event) : bool :=
  existsb (fun ev => match ev_call ev, ev_raised ev with
                     | Click _, None => true
                     | _, _ => false
                     end) h.

(** A site that, once signed in, answers its root with the dashboard,
    which has no login form: filling [#agentId] then times out. *)
Definition redirecting_site : Env :=
  {| raises := fun h c =>
       match c with
       | Fill _ _ =>
           if signed_in h
           then Some (timeout_error "Page.fill: Timeout 30000ms exceeded.")
           else None
       | _ => None
       end;
     page_url := fun h =>
       if signed_in h then "https://splitfin.co.uk/dashboard"
       else "https://splitfin.co.uk/login";
     document := fun _ => sample_document;
     strftime := fun _ => "2026-01-05 09:00:00" |}.

(** C10 as stated: on a session that a completed login has left off the
    login surface, a further login completes and again lands off it. *)
Definition login_idempotent_as_specified : Prop :=
  forall (env : Env) (st st1 : State) (u1 : string),
    login env st = (st1, Returned u1) ->
    login_surface u1 = false ->
    exists st2 u2,
      login env st1 = (st2, Returned u2) /\ login_surface u2 = false.

(* ================================================================== *)
(** * Further vocabulary for the run *)
(* ================================================================== *)



(** Calls on the report file. *)
Definition is_report_call (c : Call) : bool :=
  match c with
  | OpenW _ | JsonDump _ | FileClose => true
  | _ => false
  end.

(** The session is lost and the login page no longer offers the form:
    every [fill] times out. *)
Definition login_form_gone : Env :=
  {| raises := fun _ c =>
       match c with
       | Fill _ _ => Some (timeout_error "Page.fill: Timeout 30000ms exceeded.")
       | _ => None
       end;
     page_url := fun _ => "https://splitfin.co.uk/login";
     document := fun _ => submit_only_document;
     strftime := fun _ => "2026-01-05 09:00:00" |}.
(* ================================================================== *)
(** * Properties of the in-page query *)
(* ================================================================== *)

Section StringFacts.

Lemma replace_lf_runs_length (s : jsstring) :
  JS.length (replace_lf_runs s) <= JS.length s.
Proof.
  unfold JS.length.
  induction s as [|c rest IH]; simpl; [lia|].
  destruct (is_lf c); [destruct rest as [|c' rest']|]; simpl in *; [lia| |lia].
  destruct (is_lf c'); simpl in *; lia.
Qed.

Lemma replace_lf_runs_head (s : jsstring) :
  hd_error (replace_lf_runs s) = hd_error s.
Proof.
  induction s as [|c rest IH]; simpl; [reflexivity|].
  destruct (is_lf c) eqn:Hc; [|reflexivity].
  destruct rest as [|c' rest']; [reflexivity|].
  destruct (is_lf c') eqn:Hc'; [|reflexivity].
  rewrite IH. simpl.
  unfold is_lf in *. apply N.eqb_eq in Hc, Hc'. congruence.
Qed.

Lemma has_adjacent_lf_sound (s : jsstring) :
  has_adjacent_lf s = false -> no_adjacent_lf s.
Proof.
  unfold no_adjacent_lf.
  induction s as [|c rest IH]; intros H a b E.
  - destruct a; discriminate.
  - destruct a as [|x a'].
    + simpl in E. injection E as -> ->. discriminate.
    + simpl in E. injection E as -> E.
      apply (IH) with (a := a') (b := b); [|exact E].
      simpl in H. destruct rest as [|c' rest']; [reflexivity|].
      apply orb_false_iff in H. tauto.
Qed.

Lemma replace_lf_runs_no_adjacent (s : jsstring) :
  has_adjacent_lf (replace_lf_runs s) = false.
Proof.
  induction s as [|c rest IH]; [reflexivity|].
  simpl replace_lf_runs.
  destruct (is_lf c) eqn:Hc.
  - destruct rest as [|c' rest']; [reflexivity|].
    destruct (is_lf c') eqn:Hc'; [exact IH|].
    pose proof (replace_lf_runs_head (c' :: rest')) as Hh.
    destruct (replace_lf_runs (c' :: rest')) as [|d ds] eqn:E; [reflexivity|].
    simpl in Hh. injection Hh as ->.
    change (has_adjacent_lf (c :: c' :: ds))
      with ((is_lf c && is_lf c') || has_adjacent_lf (c' :: ds)).
    rewrite Hc', andb_false_r. exact IH.
  - destruct (replace_lf_runs rest) as [|d ds] eqn:E; [reflexivity|].
    change (has_adjacent_lf (c :: d :: ds))
      with ((is_lf c && is_lf d) || has_adjacent_lf (d :: ds)).
    rewrite Hc. exact IH.
Qed.

(** [trim] keeps a contiguous piece of its argument. *)
Lemma trim_start_piece (s : jsstring) : exists p, s = p ++ trim_start s.
Proof.
  induction s as [|c rest [p IH]]; simpl.
  - exists []. reflexivity.
  - destruct (is_space c).
    + exists (c :: p). simpl. congruence.
    + exists []. reflexivity.
Qed.

Lemma trim_end_piece (s : jsstring) : exists q, s = trim_end s ++ q.
Proof.
  induction s as [|c rest [q IH]]; simpl.
  - exists []. reflexivity.
  - destruct (trim_end rest) as [|k ks].
    + destruct (is_space c).
      * exists (c :: rest). reflexivity.
      * exists rest. reflexivity.
    + exists q. simpl in *. congruence.
Qed.

Lemma trim_piece (s : jsstring) : exists p q, s = p ++ trim s ++ q.
Proof.
  destruct (trim_start_piece s) as [p Hp].
  destruct (trim_end_piece (trim_start s)) as [q Hq].
  exists p, q. unfold trim. rewrite <- Hq. exact Hp.
Qed.

Lemma trim_length (s : jsstring) : JS.length (trim s) <= JS.length s.
Proof.
  destruct (trim_piece s) as (p & q & E).
  unfold JS.length. rewrite E at 2. rewrite !length_app. lia.
Qed.

Lemma trim_no_adjacent_lf (s : jsstring) :
  no_adjacent_lf s -> no_adjacent_lf (trim s).
Proof.
  intros H a b E.
  destruct (trim_piece s) as (p & q & Es).
  apply (H (p ++ a) (b ++ q)).
  rewrite Es, E, <- !app_assoc. reflexivity.
Qed.

Lemma substring0_length (n : nat) (s : jsstring) :
  JS.length (substring0 n s) <= n.
Proof. apply firstn_le_length. Qed.

End StringFacts.


Lemma Forall_firstn_keep {A} (P : A -> Prop) (n : nat) (l : list A) :
  Forall P l -> Forall P (firstn n l).
Proof.
  intros H. rewrite <- (firstn_skipn n l) in H.
  apply Forall_app in H. tauto.
Qed.





(* ================================================================== *)
(** * Reasoning about computations *)
(* ================================================================== *)

Section MonadFacts.

Context {A B C : Type}.

Lemma meq_refl (m : M A) : m =~ m.
Proof. intros st. reflexivity. Qed.

Lemma meq_sym (m m' : M A) : m =~ m' -> m' =~ m.
Proof. intros H st. symmetry. apply H. Qed.

Lemma meq_trans (m1 m2 m3 : M A) : m1 =~ m2 -> m2 =~ m3 -> m1 =~ m3.
Proof. intros H1 H2 st. rewrite H1. apply H2. Qed.

Lemma bind_meq (m m' : M A) (k k' : A -> M B) :
  m =~ m' -> (forall a, k a =~ k' a) -> bind m k =~ bind m' k'.
Proof.
  intros Hm Hk st. unfold bind. rewrite Hm.
  destruct (m' st) as [st' [a|e]]; [apply Hk|reflexivity].
Qed.

Lemma bind_assoc (m : M A) (f : A -> M B) (g : B -> M C) :
  bind (bind m f) g =~ bind m (fun a => bind (f a) g).
Proof.
  intros st. unfold bind. destruct (m st) as [st' [a|e]]; reflexivity.
Qed.

Lemma ret_bind (a : A) (k : A -> M B) : bind (ret a) k =~ k a.
Proof. intros st. reflexivity. Qed.

End MonadFacts.

Lemma bind_ret_tt (m : M unit) : (m ;; ret tt) =~ m.
Proof.
  intros st. unfold bind, ret.
  destruct (m st) as [st' [[]|e]]; reflexivity.
Qed.

Lemma after_nil (st : State) : after st [] = st.
Proof. destruct st. unfold after. simpl. now rewrite app_nil_r. Qed.

Lemma after_after (st : State) (evs evs' : list Event) :
  after (after st evs) evs' = after st (evs ++ evs').
Proof. unfold after. simpl. now rewrite app_assoc. Qed.

Lemma record_after (st : State) (ev : Event) : record st ev = after st [ev].
Proof. reflexivity. Qed.

Section ScriptFacts.

Variable env : Env.

Lemma call_run (c : Call) (st : State) :
  call env c st =
  (after st [happened env (trace st) c], outcome_of (raises env (trace st) c)).
Proof.
  unfold call, happened, ok, failed.
  destruct (raises env (trace st) c); reflexivity.
Qed.

Lemma exec_app (s1 s2 : list Step) :
  exec env (s1 ++ s2) =~ (exec env s1 ;; exec env s2).
Proof.
  induction s1 as [|[c|c] s1 IH]; simpl.
  - apply meq_sym, (ret_bind tt (fun _ => exec env s2)).
  - eapply meq_trans; [|apply meq_sym, bind_assoc].
    apply bind_meq; [apply meq_refl|intros _; exact IH].
  - eapply meq_trans; [|apply meq_sym, bind_assoc].
    apply bind_meq; [apply meq_refl|intros _; exact IH].
Qed.

(** A script run as a computation does what [run_steps] computes. *)
Lemma exec_run (steps : list Step) (st : State) :
  exec env steps st =
  (after st (fst (run_steps env (trace st) steps)),
   outcome_of (snd (run_steps env (trace st) steps))).
Proof.
  revert st. induction steps as [|s rest IH]; intros st.
  - simpl. now rewrite after_nil.
  - destruct s as [c|c]; simpl exec; simpl run_steps; unfold bind, try_pass,
      try_except, ret; rewrite call_run; unfold happened; simpl ev_raised;
      destruct (raises env (trace st) c) as [e|] eqn:Hr; simpl outcome_of;
      try reflexivity;
      cbv beta iota; rewrite IH; simpl trace;
      destruct (run_steps env _ rest) as [evs r]; simpl;
      now rewrite after_after.
Qed.

Lemma wait_stable_exec (timeout : Z) :
  wait_stable env timeout =~ exec env (wait_stable_steps timeout).
Proof.
  unfold wait_stable, wait_stable_steps. simpl exec.
  apply bind_meq; [apply meq_refl|intros _].
  apply bind_meq; [apply meq_refl|intros _].
  apply meq_sym, bind_ret_tt.
Qed.

End ScriptFacts.

(* ================================================================== *)
(** * The stability wait *)
(* ================================================================== *)

(** C7. For every state of the page and every timeout, [wait_stable]
    makes exactly three calls: the wait for network idle, the wait for
    the parsed document and the settle delay of 2000 ms.  Whatever the
    two load-state waits raise (a timeout included) is recorded in the
    trace and goes no further: the settle delay is always applied, and
    [wait_stable] ends the way the settle delay ends. *)
Theorem wait_stable_swallows_timeouts (env : Env) (timeout : Z) (st : State) :
  let e1 := happened env (trace st) (WaitForLoadState "networkidle" timeout) in
  let e2 := happened env (trace st ++ [e1])
                     (WaitForLoadState "domcontentloaded" 5000) in
  let e3 := happened env (trace st ++ [e1; e2]) (WaitForTimeout 2000) in
  wait_stable env timeout st
  = (after st [e1; e2; e3], outcome_of (ev_raised e3)).
Proof.
  cbv zeta. rewrite wait_stable_exec, exec_run.
  unfold wait_stable_steps. simpl run_steps.
  rewrite <- !app_assoc. simpl app.
  destruct (raises env _ (WaitForTimeout 2000)) eqn:E; simpl; rewrite E;
    reflexivity.
Qed.

(* ================================================================== *)
(** * The Authenticator *)
(* ================================================================== *)

Section LoginFacts.

Variable env : Env.

Lemma exec_must_bind {A} (c : Call) (rest : list Step) (k : unit -> M A) :
  bind (exec env (Must c :: rest)) k
  =~ (call env c ;; bind (exec env rest) k).
Proof. simpl exec. apply bind_assoc. Qed.

Lemma exec_app_bind {A} (s1 s2 : list Step) (k : unit -> M A) :
  bind (exec env (s1 ++ s2)) k
  =~ (exec env s1 ;; bind (exec env s2) k).
Proof.
  eapply meq_trans; [|apply bind_assoc].
  apply bind_meq; [apply exec_app|intros a; apply meq_refl].
Qed.

Lemma exec_nil_bind {A} (k : unit -> M A) : bind (exec env []) k =~ k tt.
Proof. intros st. reflexivity. Qed.

Lemma wait_then {A} (t : Z) (rest : list Step) (k : unit -> M A) (m : M A) :
  m =~ bind (exec env rest) k ->
  (wait_stable env t ;; m) =~ bind (exec env (wait_stable_steps t ++ rest)) k.
Proof.
  intros H. eapply meq_trans; [|apply meq_sym, exec_app_bind].
  apply bind_meq; [apply wait_stable_exec|intros _; exact H].
Qed.

Lemma call_then {A} (c : Call) (rest : list Step) (k : unit -> M A) (m : M A) :
  m =~ bind (exec env rest) k ->
  (call env c ;; m) =~ bind (exec env (Must c :: rest)) k.
Proof.
  intros H. eapply meq_trans; [|apply meq_sym, exec_must_bind].
  apply bind_meq; [apply meq_refl|intros _; exact H].
Qed.

Lemma login_exec :
  login env =~ (exec env login_steps ;; get_url env).
Proof.
  unfold login, login_steps.
  apply call_then, wait_then. simpl app.
  do 4 apply call_then.
  apply wait_then. apply call_then.
  apply meq_sym, exec_nil_bind.
Qed.

(** One invocation of [login], whatever the state of the session. *)
Lemma login_run (st : State) :
  login env st =
  (after st (fst (run_steps env (trace st) login_steps)),
   match snd (run_steps env (trace st) login_steps) with
   | None => Returned
               (page_url env (trace st ++ fst (run_steps env (trace st) login_steps)))
   | Some e => Raised e
   end).
Proof.
  rewrite login_exec. unfold bind. rewrite exec_run.
  destruct (run_steps env (trace st) login_steps) as [evs [e|]]; reflexivity.
Qed.

End LoginFacts.

(** C10, as stated, fails: [login] fills the login form without looking
    at the session.  On a site whose root shows the dashboard once the
    session is signed in, the first login completes off the login surface
    and the next one raises at the first [fill]. *)
Lemma login_not_idempotent : ~ login_idempotent_as_specified.
Proof.
  intros H.
  destruct (H redirecting_site initial
              (fst (login redirecting_site initial))
              "https://splitfin.co.uk/dashboard" eq_refl eq_refl)
    as (st2 & u2 & E & _).
  vm_compute in E. discriminate E.
Qed.

(** C10, amended.  Invoked twice in succession, on an authenticated
    session or not, [login] makes the same fixed sequence of driver calls
    each time and never looks at the session: an invocation completes
    without error exactly when none of its calls outside the two swallowed
    load-state waits raises, and it then returns [page.url] as it is at
    that moment; otherwise it raises the exception of the first such call
    and makes no further call. *)
Theorem login_repeats_fixed_script (env : Env) (st : State) :
  let run1 := run_steps env (trace st) login_steps in
  let st1 := after st (fst run1) in
  let run2 := run_steps env (trace st1) login_steps in
  let st2 := after st1 (fst run2) in
  login env st
  = (st1, match snd run1 with
          | None => Returned (page_url env (trace st1))
          | Some e => Raised e
          end)
  /\ login env st1
     = (st2, match snd run2 with
             | None => Returned (page_url env (trace st2))
             | Some e => Raised e
             end).
Proof.
  cbv zeta. split; apply login_run.
Qed.

(* ================================================================== *)
(** * One route *)
(* ================================================================== *)

(** Re-nest [(m ;; f) ;; g] as [m ;; (f ;; g)]. *)
Ltac reassoc := eapply meq_trans; [apply bind_assoc|]; cbv beta.

Section RouteFacts.

Variable env : Env.

Lemma run_steps_app (h : list Event) (s1 s2 : list Step) :
  run_steps env h (s1 ++ s2) =
  match snd (run_steps env h s1) with
  | Some e => (fst (run_steps env h s1), Some e)
  | None =>
      (fst (run_steps env h s1)
         ++ fst (run_steps env (h ++ fst (run_steps env h s1)) s2),
       snd (run_steps env (h ++ fst (run_steps env h s1)) s2))
  end.
Proof.
  revert h. induction s1 as [|s rest IH]; intros h.
  - simpl. rewrite app_nil_r. now destruct (run_steps env h s2).
  - simpl app. cbn [run_steps]. rewrite IH.
    set (ev := happened env h (step_call s)).
    destruct (run_steps env (h ++ [ev]) rest) as [evs r] eqn:Hrest.
    cbn [fst snd].
    assert (Hh : forall l, (h ++ [ev]) ++ l = h ++ ev :: l)
      by (intros; now rewrite <- app_assoc).
    rewrite Hh.
    assert (Hev : raises env h (step_call s) = ev_raised ev) by reflexivity.
    rewrite ?Hev. clear Hev.
    destruct (ev_raised ev) as [e|];
      destruct s as [c|c]; destruct r as [e'|]; cbn [fst snd];
      try reflexivity;
      now destruct (run_steps env (h ++ ev :: evs) s2).
Qed.

Lemma login_then {A} (rest : list Step) (k : unit -> M A) (m : M A) :
  m =~ bind (exec env rest) k ->
  (login env ;; m) =~ bind (exec env (login_steps ++ rest)) k.
Proof.
  intros H. eapply meq_trans; [|apply meq_sym, exec_app_bind].
  eapply meq_trans; [apply bind_meq; [apply login_exec|intros a; apply meq_refl]|].
  eapply meq_trans; [apply bind_assoc|].
  apply bind_meq; [apply meq_refl|intros _].
  intros st. unfold bind at 1. unfold get_url. apply H.
Qed.

Lemma extract_exec (pg : TargetRoute) :
  (call env (Screenshot (screenshot_path pg) true) ;;
   s <- capture_structure_page env ;;
   u <- get_url env ;;
   append_result (success_entry pg u (screenshot_path pg) s))
  =~ (exec env (extract_steps pg) ;; finish env pg).
Proof.
  unfold extract_steps. apply call_then.
  unfold capture_structure_page.
  reassoc. apply call_then. apply meq_sym, exec_nil_bind.
Qed.

Lemma visit_exec (pg : TargetRoute) :
  visit env pg
  =~ (exec env (arrive_steps pg) ;;
      actual <- get_url env ;;
      exec env (if session_lost actual pg
                then login_steps ++ arrive_steps pg ++ extract_steps pg
                else extract_steps pg) ;;
      finish env pg).
Proof.
  unfold visit, arrive_steps.
  apply call_then, wait_then.
  eapply meq_trans; [|apply meq_sym, exec_nil_bind].
  apply bind_meq; [apply meq_refl|intros actual].
  destruct (session_lost actual pg).
  - reassoc. apply login_then. reassoc.
    simpl app. apply call_then, wait_then, extract_exec.
  - eapply meq_trans; [apply (ret_bind tt)|]. apply extract_exec.
Qed.

Lemma finish_run (pg : TargetRoute) (st : State) :
  finish env pg st =
  ({| trace := trace st;
      results := results st
                 ++ [success_entry pg (page_url env (trace st))
                       (screenshot_path pg)
                       (capture_structure (document env (trace st)))] |},
   Returned tt).
Proof. reflexivity. Qed.

(** What the [try] body of one iteration does. *)
Lemma visit_run (pg : TargetRoute) (st : State) :
  visit env pg st =
  match snd (run_steps env (trace st) (route_steps env (trace st) pg)) with
  | Some e => (after st (route_events env (trace st) pg), Raised e)
  | None =>
      ({| trace := trace st ++ route_events env (trace st) pg;
          results := results st ++ [route_entry env (trace st) pg] |},
       Returned tt)
  end.
Proof.
  rewrite visit_exec. unfold route_entry, route_events, route_steps.
  unfold bind at 1. rewrite exec_run.
  set (h := trace st).
  set (arr := run_steps env h (arrive_steps pg)).
  assert (Hsplit : forall tail,
    run_steps env h (arrive_steps pg ++ tail) =
    match snd arr with
    | Some e => (fst arr, Some e)
    | None => (fst arr ++ fst (run_steps env (h ++ fst arr) tail),
               snd (run_steps env (h ++ fst arr) tail))
    end) by (intros; apply run_steps_app).
  assert (Hroute :
    run_steps env h
      (if session_lost (page_url env (h ++ fst arr)) pg
       then recovery_steps pg else plain_steps pg) =
    match snd arr with
    | Some e => (fst arr, Some e)
    | None =>
        let tail := if session_lost (page_url env (h ++ fst arr)) pg
                    then login_steps ++ arrive_steps pg ++ extract_steps pg
                    else extract_steps pg in
        (fst arr ++ fst (run_steps env (h ++ fst arr) tail),
         snd (run_steps env (h ++ fst arr) tail))
    end).
  { unfold recovery_steps, plain_steps.
    destruct (session_lost _ pg); apply Hsplit. }
  rewrite Hroute. clear Hroute Hsplit.
  destruct (snd arr) as [e|] eqn:Harr; simpl outcome_of; cbv beta iota.
  - reflexivity.
  - unfold bind, get_url. simpl trace. fold h.
    cbv zeta.
    set (tail := if session_lost (page_url env (h ++ fst arr)) pg
                 then login_steps ++ arrive_steps pg ++ extract_steps pg
                 else extract_steps pg).
    rewrite exec_run. simpl trace. fold h.
    destruct (run_steps env (h ++ fst arr) tail) as [evs [e|]] eqn:Htail;
      simpl fst; simpl snd; simpl outcome_of; cbv beta iota.
    + now rewrite after_after.
    + rewrite finish_run. rewrite after_after. simpl. reflexivity.
Qed.

(** One iteration: never raises and appends exactly one dictionary. *)
Lemma process_route_run (pg : TargetRoute) (st : State) :
  process_route env pg st =
  ({| trace := trace st ++ route_events env (trace st) pg;
      results := results st ++ [route_entry env (trace st) pg] |},
   Returned tt).
Proof.
  unfold process_route, try_except. rewrite visit_run.
  unfold route_entry.
  destruct (snd (run_steps env (trace st) (route_steps env (trace st) pg)));
    reflexivity.
Qed.

Lemma for_each_run (routes : list TargetRoute) (st : State) :
  for_each routes (process_route env) st =
  ({| trace := trace st ++ crawl_events env (trace st) routes;
      results := results st ++ crawl_entries env (trace st) routes |},
   Returned tt).
Proof.
  revert st. induction routes as [|pg rest IH]; intros st.
  - simpl. unfold ret. rewrite !app_nil_r. now destruct st.
  - simpl for_each. unfold bind. rewrite process_route_run, IH.
    simpl. now rewrite <- !app_assoc.
Qed.

End RouteFacts.

(* ================================================================== *)
(** * The whole run *)
(* ================================================================== *)

Section AuditFacts.

Variable env : Env.

Lemma write_report_run (report : Report) (st : State) :
  write_report env report st =
  (after st (fst (write_run env (trace st) report)),
   outcome_of (snd (write_run env (trace st) report))).
Proof.
  unfold write_report, with_, write_run, call, happened, after, record, ok,
    failed.
  cbn [ev_raised trace results].
  destruct (raises env (trace st) (OpenW REPORT_FILE)) as [e|];
    [reflexivity|].
  cbn [trace results]. rewrite <- !app_assoc. cbn [app].
  destruct (raises env _ (JsonDump report)) as [e1|];
    cbn [trace results]; rewrite <- !app_assoc; cbn [app];
    destruct (raises env _ FileClose) as [e2|];
    cbn [fst snd outcome_of]; rewrite <- ?app_assoc; reflexivity.
Qed.

Lemma session_exec (routes : list TargetRoute) :
  session env routes
  =~ (exec env opening_steps ;;
      set_results [] ;;
      for_each routes (process_route env) ;;
      ts <- now env ;;
      pages <- get_results ;;
      write_report env {| r_site := SITE; r_viewport := VIEWPORT;
                          r_timestamp := ts; r_pages := pages |} ;;
      call env BrowserClose).
Proof.
  unfold session, opening_steps, launch_steps. cbn [app].
  do 3 apply call_then. apply login_then.
  apply meq_sym, exec_nil_bind.
Qed.

(** The body of the [with] block, from the state in which it starts. *)
Lemma session_run (routes : list TargetRoute) (st : State) :
  session env routes st =
  match snd (run_steps env (trace st) opening_steps) with
  | Some e => (after st (fst (run_steps env (trace st) opening_steps)), Raised e)
  | None =>
      let h := trace st ++ fst (run_steps env (trace st) opening_steps) in
      ({| trace := h ++ fst (crawl_and_report env h routes);
          results := crawl_entries env h routes |},
       outcome_of (snd (crawl_and_report env h routes)))
  end.
Proof.
  rewrite session_exec. unfold bind at 1. rewrite exec_run.
  destruct (snd (run_steps env (trace st) opening_steps)) as [e|];
    cbn [outcome_of]; [reflexivity|].
  cbv zeta.
  set (h := trace st ++ fst (run_steps env (trace st) opening_steps)).
  unfold bind at 1. unfold set_results at 1. cbn [trace after]. fold h.
  unfold bind at 1. rewrite for_each_run. cbn [trace results app].
  unfold bind at 1. unfold now at 1. cbn [trace].
  unfold bind at 1. unfold get_results at 1. cbn [results].
  unfold bind. rewrite write_report_run. cbn [trace].
  unfold crawl_and_report, report_of.
  destruct (snd (write_run env _ _)) as [e|] eqn:Hw; cbn [outcome_of].
  - unfold after. cbn [trace results]. now rewrite <- app_assoc.
  - rewrite call_run. unfold after. cbn [trace results fst snd].
    rewrite <- !app_assoc. reflexivity.
Qed.

Lemma audit_run (routes : list TargetRoute) (st : State) :
  audit env routes st =
  match raises env (trace st) PlaywrightEnter with
  | Some e => (after st [failed PlaywrightEnter e], Raised e)
  | None =>
      let inner := session env routes (after st [ok PlaywrightEnter]) in
      let e_exit := happened env (trace (fst inner)) PlaywrightExit in
      (after (fst inner) [e_exit],
       match ev_raised e_exit with
       | Some e => Raised e
       | None => snd inner
       end)
  end.
Proof.
  unfold audit, with_, call, happened, ok, failed.
  destruct (raises env (trace st) PlaywrightEnter) as [e|]; [reflexivity|].
  cbv zeta.
  destruct (session env routes _) as [st2 r].
  cbn [fst snd ev_raised].
  destruct (raises env (trace st2) PlaywrightExit); reflexivity.
Qed.

End AuditFacts.

(* ================================================================== *)
(** * The report *)
(* ================================================================== *)

Section ReportFacts.

Variable env : Env.

Lemma reports_dumped_app (h1 h2 : list Event) :
  reports_dumped (h1 ++ h2) = reports_dumped h1 ++ reports_dumped h2.
Proof.
  induction h1 as [|ev h1 IH]; [reflexivity|].
  simpl. destruct (dumped ev); simpl; now rewrite IH.
Qed.

Lemma page_events_dump_nothing (h : list Event) :
  Forall page_event h -> reports_dumped h = [].
Proof.
  induction 1 as [|ev h Hev _ IH]; [reflexivity|].
  simpl. unfold dumped. unfold page_event in Hev.
  destruct (ev_call ev); try discriminate; exact IH.
Qed.

(** The events of a script are events of its calls. *)
Lemma run_steps_calls (p : Call -> bool) (steps : list Step) (h : list Event) :
  forallb p (map step_call steps) = true ->
  Forall (fun ev => p (ev_call ev) = true) (fst (run_steps env h steps)).
Proof.
  revert h. induction steps as [|s rest IH]; intros h H; [constructor|].
  simpl in H. apply andb_true_iff in H as [Hs Hrest].
  cbn [run_steps].
  specialize (IH (h ++ [happened env h (step_call s)]) Hrest).
  destruct (run_steps env (h ++ [happened env h (step_call s)]) rest)
    as [evs r].
  assert (Hev : p (ev_call (happened env h (step_call s))) = true) by exact Hs.
  destruct s as [c|c]; [destruct (ev_raised (happened env h (step_call (Must c))))|];
    cbn [fst]; repeat constructor; assumption.
Qed.

Lemma run_steps_page_events (steps : list Step) (h : list Event) :
  forallb is_page_call (map step_call steps) = true ->
  Forall page_event (fst (run_steps env h steps)).
Proof. apply run_steps_calls. Qed.

Lemma route_events_page_events (h : list Event) (pg : TargetRoute) :
  Forall page_event (route_events env h pg).
Proof.
  unfold route_events, route_steps.
  destruct (session_lost _ pg); apply run_steps_page_events; reflexivity.
Qed.

Lemma crawl_events_page_events (routes : list TargetRoute) (h : list Event) :
  Forall page_event (crawl_events env h routes).
Proof.
  revert h. induction routes as [|pg rest IH]; intros h; [constructor|].
  simpl. apply Forall_app. split; [apply route_events_page_events|apply IH].
Qed.

Lemma opening_page_events (h : list Event) :
  Forall page_event (fst (run_steps env h opening_steps)).
Proof. apply run_steps_page_events. reflexivity. Qed.

(** What [write_run] leaves behind. *)
Lemma write_run_dumped (h : list Event) (report : Report) :
  (reports_dumped (fst (write_run env h report)) = []
   /\ snd (write_run env h report) <> None)
  \/ reports_dumped (fst (write_run env h report)) = [report].
Proof.
  unfold write_run, happened. cbn [ev_raised].
  destruct (raises env h (OpenW REPORT_FILE)) as [e|]; cbn [fst snd].
  - left. split; [reflexivity|discriminate].
  - destruct (raises env _ (JsonDump report)) as [e1|] eqn:E1.
    + left. split; [reflexivity|].
      destruct (raises env _ FileClose); discriminate.
    + right. reflexivity.
Qed.

(** Every entry of the loop carries the name of its route. *)
Lemma route_entry_name (h : list Event) (pg : TargetRoute) :
  dict_get "name" (route_entry env h pg) = Some (VStr (pg_name pg)).
Proof.
  unfold route_entry. destruct (snd (run_steps env h _)); reflexivity.
Qed.



(** A run dumps no report and fails, or dumps exactly the report of its
    loop. *)
Lemma audit_reports (routes : list TargetRoute) :
  (reports_dumped (trace (fst (audit env routes initial))) = []
   /\ snd (audit env routes initial) <> Returned tt)
  \/ exists h,
       reports_dumped (trace (fst (audit env routes initial)))
       = [report_of env h routes].
Proof.
  rewrite audit_run. unfold initial. cbn [trace].
  destruct (raises env [] PlaywrightEnter) as [e|].
  { left. split; [reflexivity|discriminate]. }
  cbv zeta. rewrite session_run. cbn [trace after app].
  pose proof (opening_page_events [ok PlaywrightEnter]) as Hopen.
  apply page_events_dump_nothing in Hopen.
  destruct (snd (run_steps env [ok PlaywrightEnter] opening_steps)) as [e|].
  { left. cbn [fst snd trace after]. split.
    - rewrite !reports_dumped_app. cbn [app].
      change (reports_dumped (ok PlaywrightEnter :: ?l))
        with (reports_dumped l).
      rewrite Hopen. reflexivity.
    - destruct (ev_raised _); discriminate. }
  cbv zeta. cbn [fst snd trace after].
  set (h := ok PlaywrightEnter
            :: fst (run_steps env [ok PlaywrightEnter] opening_steps)).
  pose proof (crawl_events_page_events routes h) as Hcrawl.
  apply page_events_dump_nothing in Hcrawl.
  assert (Hh : reports_dumped h = []) by exact Hopen.
  assert (Hshape : forall l,
            ok PlaywrightEnter
            :: fst (run_steps env [ok PlaywrightEnter] opening_steps) ++ l
            = h ++ l) by reflexivity.
  unfold crawl_and_report.
  destruct (write_run_dumped (h ++ crawl_events env h routes)
              (report_of env h routes)) as [[Hw Hne]|Hw].
  - left.
    destruct (snd (write_run env _ _)) as [e|]; [|congruence].
    cbn [fst snd outcome_of]. split.
    + rewrite !Hshape, !reports_dumped_app, Hh, Hw, Hcrawl. reflexivity.
    + destruct (ev_raised _); discriminate.
  - right. exists h.
    destruct (snd (write_run env _ _)) as [e|]; cbn [fst snd];
      rewrite !Hshape, !reports_dumped_app, Hh, Hw, Hcrawl; reflexivity.
Qed.

End ReportFacts.



(* ================================================================== *)
(** * The two variants of a result *)
(* ================================================================== *)

Section VariantFacts.

Variable env : Env.

(** An exception that ends a script was raised by one of its calls. *)
Lemma run_steps_raised (steps : list Step) (h : list Event) (e : PyException) :
  snd (run_steps env h steps) = Some e ->
  exists h' c, raises env h' c = Some e.
Proof.
  revert h. induction steps as [|s rest IH]; intros h H; [discriminate|].
  cbn [run_steps] in H.
  destruct (run_steps env (h ++ [happened env h (step_call s)]) rest)
    as [evs r] eqn:Hrest.
  assert (Hr : r = Some e -> exists h' c, raises env h' c = Some e).
  { intros ->. apply (IH (h ++ [happened env h (step_call s)])).
    now rewrite Hrest. }
  destruct s as [c|c]; cbn [step_call] in *.
  - destruct (ev_raised (happened env h c)) as [e0|] eqn:Hc.
    + cbn [snd] in H. injection H as ->. exists h, c. exact Hc.
    + apply Hr. exact H.
  - apply Hr. exact H.
Qed.

Lemma route_entry_variant (h : list Event) (pg : TargetRoute) :
  (is_success (route_entry env h pg) = true
   /\ is_failure (route_entry env h pg) = false)
  \/ (is_failure (route_entry env h pg) = true
      /\ is_success (route_entry env h pg) = false
      /\ exists e h' c,
           raises env h' c = Some e
           /\ dict_get "error" (route_entry env h pg) = Some (VStr (exc_str e))).
Proof.
  unfold route_entry.
  destruct (snd (run_steps env h (route_steps env h pg))) as [e|] eqn:Hrun.
  - right. repeat split; try reflexivity.
    destruct (run_steps_raised _ _ _ Hrun) as (h' & c & Hc).
    exists e, h', c. split; [exact Hc|reflexivity].
  - left. split; reflexivity.
Qed.

Lemma crawl_entries_are_route_entries (routes : list TargetRoute)
      (h : list Event) (d : Dict) :
  In d (crawl_entries env h routes) ->
  exists h' pg, In pg routes /\ d = route_entry env h' pg.
Proof.
  revert h. induction routes as [|pg rest IH]; intros h H; [contradiction|].
  destruct H as [<-|H].
  - exists h, pg. split; [now left|reflexivity].
  - destruct (IH _ H) as (h' & pg' & Hin & ->).
    exists h', pg'. split; [now right|reflexivity].
Qed.

End VariantFacts.

(** C2, as stated, fails in one detail: the error string is [str(e)] of
    the exception caught, and nothing makes it non-empty.  When the
    exception carries no message the failure entry has an empty error. *)
Lemma failure_entry_with_empty_error :
  map (fun r => hd_error (r_pages r))
      (reports_dumped (trace (fst (main silent_failure initial))))
  = [ Some [ ("name", VStr "01-dashboard");
             ("intended_path", VStr "/dashboard");
             ("error", VStr "") ] ]
  /\ ~ variant_as_specified [ ("name", VStr "01-dashboard");
                              ("intended_path", VStr "/dashboard");
                              ("error", VStr "") ].
Proof.
  split; [vm_compute; reflexivity|].
  intros [[Hs _]|(_ & _ & msg & Hmsg & Hne)].
  - discriminate Hs.
  - apply Hne. cbn in Hmsg. congruence.
Qed.

(** C2, amended.  Every entry of every report that a run dumps is of
    exactly one variant: the success fields (summary data and screenshot
    path) without an error field, or an error field without any success
    field; the error is the message of an exception that a call raised,
    as it is, empty if that message is empty. *)
Theorem result_is_exactly_one_variant
        (env : Env) (routes : list TargetRoute) (report : Report) (d : Dict) :
  In report (reports_dumped (trace (fst (audit env routes initial)))) ->
  In d (r_pages report) ->
  (is_success d = true /\ is_failure d = false)
  \/ (is_failure d = true /\ is_success d = false
      /\ exists e h c,
           raises env h c = Some e
           /\ dict_get "error" d = Some (VStr (exc_str e))).
Proof.
  intros Hr Hd.
  destruct (audit_reports env routes) as [[Hnone _]|[h Hh]].
  - rewrite Hnone in Hr. contradiction.
  - rewrite Hh in Hr. destruct Hr as [<-|[]].
    cbn [report_of r_pages] in Hd.
    apply crawl_entries_are_route_entries in Hd as (h' & pg & _ & ->).
    apply route_entry_variant.
Qed.

(** The first entry of the report when the dashboard cannot be reached. *)
Lemma result_is_exactly_one_variant_witness :
  let d := [ ("name", VStr "01-dashboard");
             ("intended_path", VStr "/dashboard");
             ("error", VStr "Page.goto: net::ERR_CONNECTION_REFUSED") ] in
  is_failure d = true /\ is_success d = false.
Proof.
  intros d.
  destruct (result_is_exactly_one_variant dashboard_down PAGES
              (report_of dashboard_down
                 (ok PlaywrightEnter
                  :: fst (run_steps dashboard_down [ok PlaywrightEnter]
                                    opening_steps))
                 PAGES)
              d) as [[Hs _]|(Hf & Hs & _)].
  - vm_compute. left. reflexivity.
  - vm_compute. left. reflexivity.
  - discriminate Hs.
  - split; assumption.
Defined.

(* ================================================================== *)
(** * Session loss, failure isolation, fatal login, teardown *)
(* ================================================================== *)



Section IsolationFacts.

Variable env : Env.

Lemma route_events_start (h : list Event) (pg : TargetRoute) :
  exists evs,
    route_events env h pg
    = happened env h (Goto (route_url pg) "domcontentloaded" 20000) :: evs.
Proof.
  unfold route_events, route_steps.
  destruct (session_lost _ pg); unfold recovery_steps, plain_steps,
    arrive_steps; cbn [app run_steps step_call];
    destruct (ev_raised _);
    try (eexists; reflexivity);
    destruct (run_steps env _ _); eexists; reflexivity.
Qed.




Lemma crawl_and_report_events (h : list Event) (routes : list TargetRoute) :
  exists tl,
    fst (crawl_and_report env h routes)
    = crawl_events env h routes
      ++ fst (write_run env (h ++ crawl_events env h routes)
                        (report_of env h routes))
      ++ tl
    /\ reports_dumped tl = [].
Proof.
  unfold crawl_and_report.
  destruct (snd (write_run env _ _)); cbn [fst].
  - exists []. now rewrite app_nil_r.
  - eexists. split; reflexivity.
Qed.

End IsolationFacts.



Section FatalLoginFacts.

Variable env : Env.

Lemma fold_session_step_exit (h : list Event) (ev : Event) :
  ev_call ev = PlaywrightExit -> session_open (h ++ [ev]) = false.
Proof.
  intros H. unfold session_open. rewrite fold_left_app. cbn [fold_left].
  unfold session_step. now rewrite H.
Qed.

Lemma quiet_calls_no_report (h : list Event) :
  Forall (fun ev => negb (is_route_or_report_call (ev_call ev)) = true) h ->
  Forall (fun ev => is_route_or_report_call (ev_call ev) = false) h.
Proof.
  apply Forall_impl. intros ev H. now apply negb_true_iff.
Qed.

End FatalLoginFacts.

(** C8. When the browser and its page have been set up and the first
    [login] raises, the run ends with an exception right after leaving
    the Playwright scope: the trace is the trace of the failed login plus
    the scope exit, so no route is navigated to and nothing is queried,
    [results] holds no entry, and the report file is neither opened nor
    written. *)
Theorem failed_initial_login_is_fatal
        (env : Env) (routes : list TargetRoute) (st1 : State) (e : PyException) :
  raises env [] PlaywrightEnter = None ->
  snd (run_steps env [ok PlaywrightEnter] launch_steps) = None ->
  login env {| trace := ok PlaywrightEnter
                        :: fst (run_steps env [ok PlaywrightEnter] launch_steps);
               results := [] |}
  = (st1, Raised e) ->
  let e_exit := happened env (trace st1) PlaywrightExit in
  audit env routes initial
  = (after st1 [e_exit],
     Raised match ev_raised e_exit with Some e' => e' | None => e end)
  /\ results (fst (audit env routes initial)) = []
  /\ reports_dumped (trace (fst (audit env routes initial))) = []
  /\ Forall (fun ev => is_route_or_report_call (ev_call ev) = false)
            (trace (fst (audit env routes initial))).
Proof.
  intros Henter Hlaunch Hlogin. cbv zeta.
  rewrite login_run in Hlogin. cbn [trace] in Hlogin.
  set (h0 := ok PlaywrightEnter
             :: fst (run_steps env [ok PlaywrightEnter] launch_steps)) in *.
  destruct (snd (run_steps env h0 login_steps)) as [e0|] eqn:Hl;
    [|discriminate].
  apply pair_equal_spec in Hlogin as [<- He].
  injection He as ->.
  assert (Hopen : run_steps env [ok PlaywrightEnter] opening_steps
                  = (fst (run_steps env [ok PlaywrightEnter] launch_steps)
                     ++ fst (run_steps env h0 login_steps), Some e)).
  { unfold opening_steps. rewrite run_steps_app, Hlaunch.
    change ([ok PlaywrightEnter]
            ++ fst (run_steps env [ok PlaywrightEnter] launch_steps)) with h0.
    now rewrite Hl. }
  assert (Hrun : audit env routes initial
          = (after (after {| trace := h0; results := [] |}
                          (fst (run_steps env h0 login_steps)))
                   [happened env (h0 ++ fst (run_steps env h0 login_steps))
                             PlaywrightExit],
             Raised match raises env (h0 ++ fst (run_steps env h0 login_steps))
                                 PlaywrightExit with
                    | Some e' => e'
                    | None => e
                    end)).
  { rewrite audit_run. unfold initial. cbn [trace]. rewrite Henter.
    cbv zeta. rewrite session_run. cbn [trace after app]. rewrite Hopen.
    cbn [fst snd trace after happened ev_raised].
    unfold after, h0. cbn [trace results app].
    rewrite <- !app_assoc. cbn [app].
    destruct (raises env _ PlaywrightExit); reflexivity. }
  split; [exact Hrun|]. rewrite Hrun. cbn [fst after trace results].
  split; [reflexivity|].
  assert (Hquiet : Forall (fun ev => negb (is_route_or_report_call (ev_call ev))
                                     = true)
                          ((h0 ++ fst (run_steps env h0 login_steps))
                           ++ [happened env
                                 (h0 ++ fst (run_steps env h0 login_steps))
                                 PlaywrightExit])).
  { apply Forall_app. split; [apply Forall_app; split|].
    - unfold h0. constructor; [reflexivity|].
      apply (run_steps_calls env (fun c => negb (is_route_or_report_call c))
                             launch_steps [ok PlaywrightEnter]).
      reflexivity.
    - apply (run_steps_calls env (fun c => negb (is_route_or_report_call c))
                             login_steps h0).
      reflexivity.
    - constructor; [reflexivity|constructor]. }
  split.
  - clear -Hquiet. induction Hquiet as [|ev l Hev _ IH]; [reflexivity|].
    cbn [reports_dumped]. unfold dumped.
    destruct (ev_call ev); try exact IH. discriminate Hev.
  - apply quiet_calls_no_report. exact Hquiet.
Qed.

(** The site cannot be reached: the first login raises at its first
    navigation and the run stops there. *)
Lemma failed_initial_login_is_fatal_witness :
  snd (main site_down initial)
  = Raised (timeout_error "Page.goto: Timeout 30000ms exceeded.")
  /\ results (fst (main site_down initial)) = []
  /\ reports_dumped (trace (fst (main site_down initial))) = []
  /\ map ev_call (trace (fst (main site_down initial)))
     = [ PlaywrightEnter; Launch true; NewContext VIEWPORT USER_AGENT; NewPage;
         Goto SITE "domcontentloaded" 30000; PlaywrightExit ].
Proof.
  destruct (failed_initial_login_is_fatal site_down PAGES
              (fst (login site_down
                      {| trace := ok PlaywrightEnter
                                  :: fst (run_steps site_down [ok PlaywrightEnter]
                                                    launch_steps);
                         results := [] |}))
              (timeout_error "Page.goto: Timeout 30000ms exceeded.")
              eq_refl eq_refl eq_refl) as (Hrun & Hres & Hrep & _).
  unfold main. split; [rewrite Hrun; reflexivity|].
  split; [exact Hres|]. split; [exact Hrep|].
  rewrite Hrun. vm_compute. reflexivity.
Defined.

(** C9. On every exit path of a run the browser session is released.
    If the Playwright scope cannot be entered nothing was ever launched;
    otherwise the last call of the run, whether it completes, a route
    fails or an exception goes through, is the exit of the scope, which
    stops the driver and the browser with it. *)
Theorem session_released_on_every_exit (env : Env) (routes : list TargetRoute) :
  session_open (trace (fst (audit env routes initial))) = false
  /\ match raises env [] PlaywrightEnter with
     | Some e =>
         audit env routes initial
         = ({| trace := [failed PlaywrightEnter e]; results := [] |}, Raised e)
     | None =>
         exists h,
           trace (fst (audit env routes initial))
           = h ++ [happened env h PlaywrightExit]
     end.
Proof.
  rewrite audit_run. unfold initial. cbn [trace].
  destruct (raises env [] PlaywrightEnter) as [e|].
  - split; reflexivity.
  - cbv zeta. cbn [fst after trace]. split.
    + now apply fold_session_step_exit.
    + eexists. reflexivity.
Qed.

(* ================================================================== *)
(** * Runs on the sample worlds *)
(* ================================================================== *)

(** Leading blanks, a run of three line feeds and a trailing line feed. *)
Example text_summary_of_sample :
  text_summary_of ([32; 32; 97; 10; 10; 10; 98; 32; 10]%N) = [97; 10; 98]%N.
Proof. reflexivity. Qed.

Example capture_structure_of_sample :
  buttonLabels (capture_structure sample_document) = [lit "New order"]
  /\ buttons (elements (capture_structure sample_document)) = 1
  /\ links (elements (capture_structure sample_document)) = 1
  /\ map h_tag (headings (elements (capture_structure sample_document)))
     = [lit "H1"]
  /\ map sb_text (sidebarItems (capture_structure sample_document))
     = [lit "Orders"].
Proof. repeat split. Qed.

(** Both load-state waits time out and [wait_stable] still returns. *)
Example wait_stable_on_polling_site :
  snd (wait_stable polling_site 10000 initial) = Returned tt
  /\ map ev_call (trace (fst (wait_stable polling_site 10000 initial)))
     = [ WaitForLoadState "networkidle" 10000;
         WaitForLoadState "domcontentloaded" 5000;
         WaitForTimeout 2000 ]
  /\ map (fun ev => match ev_raised ev with Some _ => true | None => false end)
         (trace (fst (wait_stable polling_site 10000 initial)))
     = [true; true; false].
Proof. repeat split. Qed.

(** The end-to-end scenario: two routes, nothing fails. *)
Example two_routes_end_to_end :
  snd (audit calm two_routes initial) = Returned tt
  /\ map (fun r => map is_success (r_pages r))
         (reports_dumped (trace (fst (audit calm two_routes initial))))
     = [[true; true]]
  /\ map (fun r => map (dict_get "screenshot") (r_pages r))
         (reports_dumped (trace (fst (audit calm two_routes initial))))
     = [[ Some (VStr "./screenshots/01-dashboard.png");
          Some (VStr "./screenshots/02-orders.png") ]]
  /\ session_open (trace (fst (audit calm two_routes initial))) = false.
Proof. vm_compute. repeat split. Qed.

(** A run in which every query fails still reports all eight routes. *)
Example all_routes_fail_and_are_reported :
  snd (main silent_failure initial) = Returned tt
  /\ map (fun r => map is_failure (r_pages r))
         (reports_dumped (trace (fst (main silent_failure initial))))
     = [[true; true; true; true; true; true; true; true]].
Proof. vm_compute. repeat split. Qed.

(* ================================================================== *)
(** * More on the in-page query *)
(* ================================================================== *)

Section TrimFacts.

Lemma trim_start_head (s : jsstring) (c : code_unit) (r : jsstring) :
  trim_start s = c :: r -> is_space c = false.
Proof.
  induction s as [|x rest IH]; simpl; [discriminate|].
  destruct (is_space x) eqn:Hx; [exact IH|].
  intros E. injection E as <- _. exact Hx.
Qed.

Lemma trim_end_head (s : jsstring) (c : code_unit) (r : jsstring) :
  trim_end s = c :: r -> exists r', s = c :: r'.
Proof.
  destruct (trim_end_piece s) as [q Hq]. intros E.
  rewrite E in Hq. exists (r ++ q). exact Hq.
Qed.

Lemma trim_end_last (s r : jsstring) (c : code_unit) :
  trim_end s = r ++ [c] -> is_space c = false.
Proof.
  revert r. induction s as [|x rest IH]; intros r; simpl.
  - destruct r; discriminate.
  - destruct (trim_end rest) as [|k ks] eqn:E.
    + destruct (is_space x) eqn:Hx.
      * destruct r; discriminate.
      * destruct r as [|y r']; simpl; intros H.
        -- injection H as <-. exact Hx.
        -- injection H as _ H. destruct r'; discriminate.
    + destruct r as [|y r']; simpl; intros H.
      * discriminate.
      * injection H as _ H. apply (IH r'). exact H.
Qed.

Lemma trim_end_fixed (s : jsstring) : trim_end (trim_end s) = trim_end s.
Proof.
  induction s as [|x rest IH]; [reflexivity|].
  simpl. destruct (trim_end rest) as [|k ks] eqn:E.
  - destruct (is_space x) eqn:Hx; [reflexivity|].
    simpl. now rewrite Hx.
  - change (trim_end (x :: k :: ks))
      with (match trim_end (k :: ks) with
            | [] => if is_space x then [] else [x]
            | kept => x :: kept
            end).
    now rewrite IH.
Qed.

Lemma trim_start_fixed (s : jsstring) :
  (forall c r, s = c :: r -> is_space c = false) -> trim_start s = s.
Proof.
  destruct s as [|c r]; [reflexivity|].
  intros H. simpl. now rewrite (H c r eq_refl).
Qed.

(** A trimmed string does not start with white space... *)
Lemma trim_first (s : jsstring) (c : code_unit) (r : jsstring) :
  trim s = c :: r -> is_space c = false.
Proof.
  unfold trim. intros E.
  destruct (trim_end_head _ _ _ E) as [r' E'].
  now apply (trim_start_head s c r').
Qed.

(** ...nor end with it... *)
Lemma trim_last (s r : jsstring) (c : code_unit) :
  trim s = r ++ [c] -> is_space c = false.
Proof. unfold trim. apply trim_end_last. Qed.

(** ...and trimming it again changes nothing. *)
Lemma trim_fixed (s : jsstring) : trim (trim s) = trim s.
Proof.
  unfold trim at 1.
  rewrite (trim_start_fixed (trim s)); [|apply trim_first].
  unfold trim. apply trim_end_fixed.
Qed.

Lemma replace_lf_runs_fixed (s : jsstring) :
  no_adjacent_lf s -> replace_lf_runs s = s.
Proof.
  induction s as [|c rest IH]; intros H; [reflexivity|].
  assert (Hrest : no_adjacent_lf rest).
  { intros a b E. apply (H (c :: a) b). simpl. now rewrite E. }
  simpl. destruct (is_lf c) eqn:Hc.
  - destruct rest as [|c' rest']; [reflexivity|].
    destruct (is_lf c') eqn:Hc'.
    + exfalso. unfold is_lf in *. apply N.eqb_eq in Hc, Hc'. subst.
      apply (H [] rest'). reflexivity.
    + now rewrite IH.
  - now rewrite IH.
Qed.

Lemma replace_lf_runs_keeps_units (s : jsstring) (c : code_unit) :
  In c (replace_lf_runs s) -> In c s.
Proof.
  induction s as [|x rest IH]; simpl; [tauto|].
  destruct (is_lf x).
  - destruct rest as [|x' rest']; [tauto|].
    destruct (is_lf x').
    + intros H. right. now apply IH.
    + intros [H|H]; [now left|right; now apply IH].
  - intros [H|H]; [now left|right; now apply IH].
Qed.

Lemma replace_lf_runs_run (c c' : code_unit) (r : jsstring) :
  is_lf c = true -> is_lf c' = true ->
  replace_lf_runs (c :: c' :: r) = replace_lf_runs (c' :: r).
Proof. intros Hc Hc'. simpl. rewrite Hc, Hc'. reflexivity. Qed.

Lemma replace_lf_runs_single (c c' : code_unit) (r : jsstring) :
  is_lf c = true -> is_lf c' = false ->
  replace_lf_runs (c :: c' :: r) = c :: replace_lf_runs (c' :: r).
Proof. intros Hc Hc'. simpl. rewrite Hc, Hc'. reflexivity. Qed.

Lemma replace_lf_runs_other (c : code_unit) (r : jsstring) :
  is_lf c = false -> replace_lf_runs (c :: r) = c :: replace_lf_runs r.
Proof. intros Hc. simpl. rewrite Hc. reflexivity. Qed.

(** Collapsing drops line feeds only. *)
Lemma replace_lf_runs_keeps_text (s : jsstring) :
  filter (fun c => negb (is_lf c)) (replace_lf_runs s)
  = filter (fun c => negb (is_lf c)) s.
Proof.
  induction s as [|x rest IH]; [reflexivity|].
  destruct (is_lf x) eqn:Hx.
  - destruct rest as [|x' rest'].
    + simpl. rewrite Hx. simpl. now rewrite Hx.
    + destruct (is_lf x') eqn:Hx'.
      * rewrite (replace_lf_runs_run _ _ _ Hx Hx'), IH.
        cbn [filter]. now rewrite Hx.
      * rewrite (replace_lf_runs_single _ _ _ Hx Hx').
        cbn [filter] in *. rewrite Hx in *. cbn [negb]. exact IH.
  - rewrite (replace_lf_runs_other _ _ Hx).
    cbn [filter]. rewrite Hx. cbn [negb]. now rewrite IH.
Qed.

Lemma trim_keeps_units (s : jsstring) (c : code_unit) :
  In c (trim s) -> In c s.
Proof.
  destruct (trim_piece s) as (p & q & E). intros H.
  rewrite E. apply in_or_app. right. apply in_or_app. now left.
Qed.

Lemma trim_start_drops_space (s : jsstring) :
  exists p, s = p ++ trim_start s /\ Forall (fun c => is_space c = true) p.
Proof.
  induction s as [|c rest (p & IH & Hp)]; simpl.
  - exists []. split; [reflexivity|constructor].
  - destruct (is_space c) eqn:Hc.
    + exists (c :: p). split; [simpl; congruence|now constructor].
    + exists []. split; [reflexivity|constructor].
Qed.

Lemma trim_end_drops_space (s : jsstring) :
  exists q, s = trim_end s ++ q /\ Forall (fun c => is_space c = true) q.
Proof.
  induction s as [|c rest (q & IH & Hq)]; simpl.
  - exists []. split; [reflexivity|constructor].
  - destruct (trim_end rest) as [|k ks].
    + simpl in IH. subst q. destruct (is_space c) eqn:Hc.
      * exists (c :: rest). split; [reflexivity|now constructor].
      * exists rest. split; [reflexivity|exact Hq].
    + exists q. split; [simpl in *; congruence|exact Hq].
Qed.

Lemma trim_drops_space (s : jsstring) :
  exists p q,
    s = p ++ trim s ++ q
    /\ Forall (fun c => is_space c = true) p
    /\ Forall (fun c => is_space c = true) q.
Proof.
  destruct (trim_start_drops_space s) as (p & Hp & Hps).
  destruct (trim_end_drops_space (trim_start s)) as (q & Hq & Hqs).
  exists p, q. unfold trim. rewrite <- Hq. now repeat split.
Qed.

End TrimFacts.

(** X1. The text excerpt never starts and never ends with white space
    (a line feed included): it is empty or its first and last code units
    are not white space. *)
Theorem text_summary_has_trimmed_ends (d : Document) :
  let excerpt := textSummary (capture_structure d) in
  (forall c r, excerpt = c :: r -> is_space c = false)
  /\ (forall r c, excerpt = r ++ [c] -> is_space c = false).
Proof.
  cbv zeta. simpl textSummary. unfold text_summary_of. split.
  - intros c r. apply trim_first.
  - intros r c. apply trim_last.
Qed.

(** X2. The excerpt pipeline is a normal form: applied to its own output
    it changes nothing. *)
Theorem text_summary_of_idempotent (bodyText : jsstring) :
  text_summary_of (text_summary_of bodyText) = text_summary_of bodyText.
Proof.
  set (t := text_summary_of bodyText).
  assert (Hlen : JS.length t <= 2000).
  { unfold t, text_summary_of.
    eapply Nat.le_trans; [apply trim_length|].
    eapply Nat.le_trans; [apply replace_lf_runs_length|].
    apply substring0_length. }
  assert (Hlf : no_adjacent_lf t).
  { unfold t, text_summary_of.
    apply trim_no_adjacent_lf, has_adjacent_lf_sound,
      replace_lf_runs_no_adjacent. }
  unfold text_summary_of at 1. unfold substring0.
  rewrite (firstn_all2 (n := 2000) t Hlen).
  rewrite (replace_lf_runs_fixed t Hlf).
  unfold t, text_summary_of. apply trim_fixed.
Qed.

(** X3. The excerpt invents nothing.  Every code unit of it occurs among
    the first 2000 code units of the body text; and those first 2000 code
    units, line feeds aside, are the excerpt between two runs of white
    space: only line feeds and the white space at the two ends are
    dropped. *)
Theorem text_summary_keeps_body_text (bodyText : jsstring) :
  (forall c, In c (text_summary_of bodyText) ->
             In c (substring0 2000 bodyText))
  /\ exists p q,
       Forall (fun c => is_space c = true) p
       /\ Forall (fun c => is_space c = true) q
       /\ filter (fun c => negb (is_lf c)) (substring0 2000 bodyText)
          = filter (fun c => negb (is_lf c))
                   (p ++ text_summary_of bodyText ++ q).
Proof.
  split.
  - intros c H. unfold text_summary_of in H.
    now apply replace_lf_runs_keeps_units, trim_keeps_units.
  - unfold text_summary_of.
    destruct (trim_drops_space (replace_lf_runs (substring0 2000 bodyText)))
      as (p & q & E & Hp & Hq).
    exists p, q. repeat split; [exact Hp|exact Hq|].
    rewrite <- E. symmetry. apply replace_lf_runs_keeps_text.
Qed.

Section QueryFacts.

Lemma js_eqb_eq (s t : jsstring) : JS.eqb s t = true -> s = t.
Proof.
  revert t. induction s as [|a s IH]; intros [|b t]; simpl;
    try discriminate; [reflexivity|].
  intros H. apply andb_true_iff in H as [Hab Hst].
  apply N.eqb_eq in Hab. subst. f_equal. now apply IH.
Qed.

Lemma querySelectorAll_matches (sel : Element -> bool) (d : Document)
      (e : Element) :
  In e (querySelectorAll sel d) -> sel e = true.
Proof.
  unfold querySelectorAll. intros H.
  apply in_map_iff in H as ((anc & e') & <- & H).
  apply filter_In in H as [_ H]. exact H.
Qed.

Lemma filter_length_mono {A} (p q : A -> bool) (l : list A) :
  (forall x, p x = true -> q x = true) ->
  List.length (filter p l) <= List.length (filter q l).
Proof.
  intros H. induction l as [|x l IH]; simpl; [lia|].
  destruct (p x) eqn:Hp.
  - rewrite (H x Hp). simpl. lia.
  - destruct (q x); simpl; lia.
Qed.

Lemma querySelectorAll_mono (p q : Element -> bool) (d : Document) :
  (forall e, p e = true -> q e = true) ->
  List.length (querySelectorAll p d) <= List.length (querySelectorAll q d).
Proof.
  intros H. unfold querySelectorAll. rewrite !length_map.
  apply filter_length_mono. intros [anc e]. apply H.
Qed.

Lemma button_labels_of_length (els : list Element) :
  List.length (button_labels_of els) <= List.length els.
Proof.
  unfold button_labels_of, slice0.
  rewrite length_firstn.
  eapply Nat.le_trans; [apply Nat.le_min_r|].
  eapply Nat.le_trans; [apply filter_length_le|].
  now rewrite length_map.
Qed.

End QueryFacts.

(** X4. There are never more button labels than counted buttons: the
    label query matches a subset of what the [buttons] count matches, and
    filtering and capping only remove entries. *)
Theorem button_labels_at_most_buttons (d : Document) :
  List.length (buttonLabels (capture_structure d))
  <= buttons (elements (capture_structure d)).
Proof.
  unfold capture_structure. cbn [buttonLabels elements buttons].
  eapply Nat.le_trans; [apply button_labels_of_length|].
  apply querySelectorAll_mono.
  intros e H. unfold sel_buttons_labelled, sel_buttons_counted, sel_or in *.
  now rewrite H.
Qed.

(** X5. Every button label is trimmed: it does not start and does not
    end with white space. *)
Theorem button_labels_have_trimmed_ends (d : Document) :
  Forall (fun t => (forall c r, t = c :: r -> is_space c = false)
                   /\ (forall r c, t = r ++ [c] -> is_space c = false))
         (buttonLabels (capture_structure d)).
Proof.
  unfold capture_structure. cbn [buttonLabels].
  unfold button_labels_of, slice0.
  apply Forall_firstn_keep, Forall_forall. intros t Ht.
  apply filter_In in Ht as [Ht _].
  apply in_map_iff in Ht as (b & <- & _).
  split; [intros c r; apply trim_first|intros r c; apply trim_last].
Qed.

(** X6. Every heading of the summary has one of the tags H1, H2, H3, H4
    (upper case, as [tagName] gives it) and a text of at most 120 code
    units. *)
Theorem headings_are_h1_to_h4_and_short (d : Document) :
  Forall (fun h => In (h_tag h) [lit "H1"; lit "H2"; lit "H3"; lit "H4"]
                   /\ JS.length (h_text h) <= 120)
         (headings (elements (capture_structure d))).
Proof.
  unfold capture_structure. cbn [elements headings].
  apply Forall_forall. intros h Hh.
  apply in_map_iff in Hh as (e & <- & He).
  apply querySelectorAll_matches in He.
  cbn [h_tag h_text]. split; [|apply substring0_length].
  unfold sel_or, has_tag in He. unfold tagName.
  repeat (apply orb_true_iff in He as [He|He]);
    apply js_eqb_eq in He; rewrite He; simpl; tauto.
Qed.

(** X7. Every sidebar item has a text of 1 to 60 code units that does
    not start with white space. *)
Theorem sidebar_items_are_short_and_non_empty (d : Document) :
  Forall (fun a => 1 <= JS.length (sb_text a) <= 60
                   /\ forall c r, sb_text a = c :: r -> is_space c = false)
         (sidebarItems (capture_structure d)).
Proof.
  unfold capture_structure. cbn [sidebarItems].
  apply Forall_forall. intros a Ha.
  apply filter_In in Ha as [Ha Hne].
  apply in_map_iff in Ha as (e & <- & _).
  cbn [sb_text] in *. split; [split|].
  - apply negb_true_iff, Nat.eqb_neq in Hne. unfold JS.length in *. lia.
  - apply substring0_length.
  - intros c r E. unfold substring0 in E.
    destruct (trim (innerText e)) as [|c' r'] eqn:Et; [discriminate|].
    simpl in E. injection E as <- _.
    now apply (trim_first (innerText e) c' r').
Qed.

(** X8. A document without elements is summarised without error: every
    count is 0 and the headings, the button labels and the sidebar items
    are empty; without a body the excerpt is empty too. *)
Theorem empty_document_gives_zero_counts (d : Document) :
  roots d = [] ->
  let s := capture_structure d in
  (forms (elements s), tables (elements s), buttons (elements s),
   inputs (elements s), cards (elements s), modals (elements s),
   links (elements s), images (elements s)) = (0, 0, 0, 0, 0, 0, 0, 0)
  /\ headings (elements s) = []
  /\ buttonLabels s = []
  /\ sidebarItems s = []
  /\ (body_innerText d = None -> textSummary s = []).
Proof.
  intros Hroots. cbv zeta.
  unfold capture_structure, querySelectorAll, querySelectorAll_below,
    all_elements.
  rewrite Hroots. cbn.
  repeat split. intros ->. reflexivity.
Qed.

Lemma empty_document_gives_zero_counts_witness :
  let d := {| doc_title := []; location_href := lit "about:blank";
              body_innerText := None; roots := [] |} in
  buttonLabels (capture_structure d) = []
  /\ textSummary (capture_structure d) = [].
Proof.
  intros d.
  destruct (empty_document_gives_zero_counts d eq_refl)
    as (_ & _ & Hb & _ & Ht).
  split; [exact Hb|apply Ht; reflexivity].
Defined.

(* ================================================================== *)
(** * More on scripts, routes and the run *)
(* ================================================================== *)

Section ScriptBounds.

Variable env : Env.

Lemma run_steps_length (steps : list Step) (h : list Event) :
  List.length (fst (run_steps env h steps)) <= List.length steps.
Proof.
  revert h. induction steps as [|s rest IH]; intros h; [simpl; lia|].
  cbn [run_steps]. specialize (IH (h ++ [happened env h (step_call s)])).
  destruct (run_steps env (h ++ [happened env h (step_call s)]) rest)
    as [evs r].
  destruct s as [c|c];
    [destruct (ev_raised (happened env h (step_call (Must c))))|];
    simpl in *; lia.
Qed.

Lemma run_steps_must_ok (steps : list Step) (h : list Event) (c : Call) :
  snd (run_steps env h steps) = None ->
  In (Must c) steps ->
  In (ok c) (fst (run_steps env h steps)).
Proof.
  revert h. induction steps as [|s rest IH]; intros h Hrun Hin;
    [contradiction|].
  cbn [run_steps] in *.
  specialize (IH (h ++ [happened env h (step_call s)])).
  destruct (run_steps env (h ++ [happened env h (step_call s)]) rest)
    as [evs r].
  destruct s as [c0|c0]; cbn [step_call] in *.
  - unfold happened in *. cbn [ev_raised] in *.
    destruct (raises env h c0) as [e|]; [discriminate|].
    cbn [fst snd] in *. destruct Hin as [Hin|Hin].
    + injection Hin as ->. now left.
    + right. now apply IH.
  - cbn [fst snd] in *. destruct Hin as [Hin|Hin]; [discriminate|].
    right. now apply IH.
Qed.

Lemma run_steps_in_calls (steps : list Step) (h : list Event) (ev : Event) :
  In ev (fst (run_steps env h steps)) ->
  In (ev_call ev) (map step_call steps).
Proof.
  revert h. induction steps as [|s rest IH]; intros h Hin; [contradiction|].
  cbn [run_steps] in Hin.
  specialize (IH (h ++ [happened env h (step_call s)])).
  destruct (run_steps env (h ++ [happened env h (step_call s)]) rest)
    as [evs r].
  assert (Hhead : ev = happened env h (step_call s) ->
                  In (ev_call ev) (map step_call (s :: rest)))
    by (intros ->; now left).
  destruct s as [c|c];
    [destruct (ev_raised (happened env h (step_call (Must c))))|];
    cbn [fst] in Hin; destruct Hin as [Hin|Hin];
    try (apply Hhead; now symmetry); try contradiction;
    right; now apply IH.
Qed.

(** A script that got past its first part ran that part to its end. *)
Lemma run_steps_past (s1 s2 : list Step) (h : list Event) (ev : Event) :
  In ev (fst (run_steps env h (s1 ++ s2))) ->
  ~ In (ev_call ev) (map step_call s1) ->
  snd (run_steps env h s1) = None.
Proof.
  intros Hin Hnot. rewrite run_steps_app in Hin.
  destruct (snd (run_steps env h s1)) as [e|]; [|reflexivity].
  cbn [fst] in Hin. exfalso. apply Hnot.
  now apply (run_steps_in_calls s1 h).
Qed.

Lemma run_steps_app_events (s1 s2 : list Step) (h : list Event) :
  snd (run_steps env h s1) = None ->
  fst (run_steps env h (s1 ++ s2))
  = fst (run_steps env h s1)
    ++ fst (run_steps env (h ++ fst (run_steps env h s1)) s2).
Proof. intros H. rewrite run_steps_app, H. reflexivity. Qed.

Lemma route_events_length (h : list Event) (pg : TargetRoute) :
  1 <= List.length (route_events env h pg) <= 22.
Proof.
  split.
  - destruct (route_events_start env h pg) as [evs ->]. simpl. lia.
  - unfold route_events, route_steps.
    destruct (session_lost _ pg);
      (eapply Nat.le_trans; [apply run_steps_length|]);
      unfold recovery_steps, plain_steps; simpl; lia.
Qed.

Lemma crawl_events_length (routes : list TargetRoute) (h : list Event) :
  List.length routes <= List.length (crawl_events env h routes)
  <= 22 * List.length routes.
Proof.
  revert h. induction routes as [|pg rest IH]; intros h; [simpl; lia|].
  cbn [crawl_events]. rewrite length_app.
  pose proof (route_events_length h pg).
  specialize (IH (h ++ route_events env h pg)).
  cbn [List.length]. lia.
Qed.

End ScriptBounds.



(** X10. A route makes at least one and at most 22 driver calls; the
    loop over [n] routes makes at most [22 * n]: there is no retry beyond
    the one recovery. *)
Theorem route_makes_at_most_22_calls
        (env : Env) (routes : list TargetRoute) (st : State) :
  (forall pg st0,
      exists evs,
        trace (fst (process_route env pg st0)) = trace st0 ++ evs
        /\ 1 <= List.length evs <= 22)
  /\ exists evs,
       trace (fst (for_each routes (process_route env) st)) = trace st ++ evs
       /\ List.length routes <= List.length evs <= 22 * List.length routes.
Proof.
  split.
  - intros pg st0. rewrite process_route_run. cbn [fst trace].
    eexists. split; [reflexivity|apply route_events_length].
  - rewrite for_each_run. cbn [fst trace].
    eexists. split; [reflexivity|apply crawl_events_length].
Qed.

(** X11. [login] never submits partial credentials: if the submit button
    is clicked, the login screenshot was taken and both fields were
    filled without error before; and [login] makes at most 12 calls. *)
Theorem login_clicks_only_after_filling
        (env : Env) (st : State) (ev : Event) :
  let evs := fst (run_steps env (trace st) login_steps) in
  trace (fst (login env st)) = trace st ++ evs
  /\ List.length evs <= 12
  /\ (In ev evs -> ev_call ev = Click SUBMIT_BUTTON ->
      In (ok (Screenshot (SCREENSHOTS_DIR ++ "/00-login.png")%string true)) evs
      /\ In (ok (Fill "#agentId" "matt")) evs
      /\ In (ok (Fill "#pin" "1234")) evs).
Proof.
  cbv zeta. split; [|split].
  - rewrite login_run. reflexivity.
  - apply (run_steps_length env login_steps).
  - intros Hin Hclick.
    set (pre := [ Must (Goto SITE "domcontentloaded" 30000);
                  Try (WaitForLoadState "networkidle" 10000);
                  Try (WaitForLoadState "domcontentloaded" 5000);
                  Must (WaitForTimeout 2000);
                  Must (Screenshot (SCREENSHOTS_DIR ++ "/00-login.png")%string
                                   true);
                  Must (Fill "#agentId" "matt");
                  Must (Fill "#pin" "1234") ]).
    set (post := Must (Click SUBMIT_BUTTON) :: wait_stable_steps 15000
                 ++ [Must (WaitForTimeout 2000)]).
    assert (Hsplit : login_steps = pre ++ post) by reflexivity.
    rewrite Hsplit in *.
    assert (Hpre : snd (run_steps env (trace st) pre) = None).
    { apply (run_steps_past env pre post (trace st) ev Hin).
      rewrite Hclick. simpl. intros H.
      repeat (destruct H as [H|H]; [discriminate H|]). exact H. }
    rewrite (run_steps_app_events env pre post (trace st) Hpre).
    repeat split; apply in_or_app; left;
      apply (run_steps_must_ok env pre (trace st) _ Hpre);
      simpl; tauto.
Qed.

(** On a site that works the form is submitted after both fields. *)
Lemma login_clicks_only_after_filling_witness :
  In (ok (Fill "#agentId" "matt")) (trace (fst (login calm initial)))
  /\ In (ok (Fill "#pin" "1234")) (trace (fst (login calm initial))).
Proof.
  destruct (login_clicks_only_after_filling calm initial
              (ok (Click SUBMIT_BUTTON))) as (Ht & _ & H).
  rewrite Ht. cbn [trace initial app].
  destruct H as (_ & H1 & H2).
  - vm_compute. tauto.
  - reflexivity.
  - split; assumption.
Defined.

Section RunShape.

Variable env : Env.

(** The three ways a run can go: the scope is not entered; the launch or
    the first login raises; the loop runs and the report step follows. *)
Lemma audit_cases (routes : list TargetRoute) :
  audit env routes initial =
  match raises env [] PlaywrightEnter with
  | Some e => ({| trace := [failed PlaywrightEnter e]; results := [] |}, Raised e)
  | None =>
      let o := run_steps env [ok PlaywrightEnter] opening_steps in
      let h := ok PlaywrightEnter :: fst o in
      match snd o with
      | Some e =>
          ({| trace := h ++ [happened env h PlaywrightExit]; results := [] |},
           Raised match raises env h PlaywrightExit with
                  | Some e' => e'
                  | None => e
                  end)
      | None =>
          let c := crawl_and_report env h routes in
          ({| trace := (h ++ fst c) ++ [happened env (h ++ fst c) PlaywrightExit];
              results := crawl_entries env h routes |},
           match raises env (h ++ fst c) PlaywrightExit with
           | Some e => Raised e
           | None => outcome_of (snd c)
           end)
      end
  end.
Proof.
  rewrite audit_run. unfold initial. cbn [trace].
  destruct (raises env [] PlaywrightEnter) as [e|]; [reflexivity|].
  cbv zeta. rewrite session_run. cbn [trace after app].
  destruct (snd (run_steps env [ok PlaywrightEnter] opening_steps)) as [e|].
  - cbn [fst snd trace after results happened ev_raised].
    destruct (raises env _ PlaywrightExit); reflexivity.
  - reflexivity.
Qed.

Lemma calls_of_other_kind (p : Call -> bool) (l : list Event) (c : Call) :
  Forall (fun ev => p (ev_call ev) = true) l -> p c = false ->
  ~ In c (map ev_call l).
Proof.
  intros Hall Hc Hin. apply in_map_iff in Hin as (ev & <- & Hev).
  rewrite Forall_forall in Hall. specialize (Hall ev Hev). congruence.
Qed.

Lemma write_run_report_calls (h : list Event) (report : Report) :
  Forall (fun ev => is_report_call (ev_call ev) = true)
         (fst (write_run env h report))
  /\ List.length (fst (write_run env h report)) <= 3.
Proof.
  unfold write_run. destruct (ev_raised (happened env h (OpenW REPORT_FILE)));
    cbn [fst]; split; repeat constructor.
Qed.

Lemma opening_length (h : list Event) :
  List.length (fst (run_steps env h opening_steps)) <= 15.
Proof. apply (run_steps_length env opening_steps). Qed.

Lemma page_events_weaken (p : Call -> bool) (l : list Event) :
  (forall c, is_page_call c = true -> p c = true) ->
  Forall page_event l -> Forall (fun ev => p (ev_call ev) = true) l.
Proof.
  intros H. apply Forall_impl. intros ev Hev. apply H. exact Hev.
Qed.

End RunShape.

(** X12. Writing the report never leaves the file open and never dumps
    into a file that could not be opened: if [open] raises nothing else
    is done; otherwise [json.dump] is called and the file is closed after
    it, whether the dump raised or not, and the exception that goes on is
    that of the close if it raised, else that of the dump. *)
Theorem report_file_is_always_closed
        (env : Env) (report : Report) (st : State) :
  match raises env (trace st) (OpenW REPORT_FILE) with
  | Some e =>
      write_report env report st
      = (after st [failed (OpenW REPORT_FILE) e], Raised e)
  | None =>
      exists e_dump e_close,
        ev_call e_dump = JsonDump report
        /\ ev_call e_close = FileClose
        /\ trace (fst (write_report env report st))
           = trace st ++ [ok (OpenW REPORT_FILE); e_dump; e_close]
        /\ snd (write_report env report st)
           = match ev_raised e_close with
             | Some e => Raised e
             | None => outcome_of (ev_raised e_dump)
             end
  end.
Proof.
  rewrite write_report_run. unfold write_run, happened. cbn [ev_raised].
  destruct (raises env (trace st) (OpenW REPORT_FILE)) as [e|];
    [reflexivity|].
  cbn [fst snd after trace]. fold (ok (OpenW REPORT_FILE)).
  exists {| ev_call := JsonDump report;
            ev_raised := raises env (trace st ++ [ok (OpenW REPORT_FILE)])
                                (JsonDump report) |}.
  eexists. split; [reflexivity|]. split; [|split; [reflexivity|]].
  - reflexivity.
  - cbn [ev_raised]. destruct (raises env _ FileClose); reflexivity.
Qed.

(** X13. A run returns normally exactly when seven things do not raise:
    entering the Playwright scope, the launch and first login, [open],
    [json.dump] and the close of the report file, [browser.close()] and
    the exit of the scope.  Nothing a route raises is among them. *)
Theorem run_completes_iff (env : Env) (routes : list TargetRoute) :
  let o := run_steps env [ok PlaywrightEnter] opening_steps in
  let h := ok PlaywrightEnter :: fst o in
  let h' := h ++ crawl_events env h routes in
  let w := write_run env h' (report_of env h routes) in
  snd (audit env routes initial) = Returned tt
  <-> raises env [] PlaywrightEnter = None
      /\ snd o = None
      /\ snd w = None
      /\ raises env (h' ++ fst w) BrowserClose = None
      /\ raises env (h' ++ fst w ++ [ok BrowserClose]) PlaywrightExit = None.
Proof.
  cbv zeta. rewrite audit_cases.
  destruct (raises env [] PlaywrightEnter) as [e|].
  { cbn [snd]. split; [discriminate|]. intros (H & _). discriminate. }
  cbv zeta.
  destruct (snd (run_steps env [ok PlaywrightEnter] opening_steps)) as [e|].
  { cbn [snd]. split; [discriminate|]. intros (_ & H & _). discriminate. }
  set (h := ok PlaywrightEnter
            :: fst (run_steps env [ok PlaywrightEnter] opening_steps)).
  unfold crawl_and_report.
  set (w := write_run env (h ++ crawl_events env h routes)
                      (report_of env h routes)).
  destruct (snd w) as [e|].
  { cbn [fst snd outcome_of]. split.
    - destruct (raises env _ PlaywrightExit); discriminate.
    - intros (_ & _ & H & _). discriminate. }
  cbn [fst snd]. unfold happened at 2. cbn [ev_raised].
  rewrite <- !app_assoc.
  destruct (raises env (h ++ crawl_events env h routes ++ fst w) BrowserClose)
    as [e|] eqn:Hclose.
  { split.
    - destruct (raises env _ PlaywrightExit); discriminate.
    - intros (_ & _ & _ & H & _). discriminate. }
  unfold happened. rewrite Hclose. fold (ok BrowserClose).
  cbn [outcome_of].
  destruct (raises env _ PlaywrightExit) as [e|]; split;
    try discriminate; try tauto.
  intros (_ & _ & _ & _ & H). discriminate.
Qed.

Section RunParts.

Variable env : Env.

Lemma in_calls_app (c : Call) (l1 l2 : list Event) :
  In c (map ev_call (l1 ++ l2))
  <-> In c (map ev_call l1) \/ In c (map ev_call l2).
Proof. rewrite map_app. apply in_app_iff. Qed.

Lemma opening_is_not_close (c : Call) :
  is_page_call c = false -> c <> PlaywrightEnter ->
  ~ In c (map ev_call
              (ok PlaywrightEnter
               :: fst (run_steps env [ok PlaywrightEnter] opening_steps))).
Proof.
  intros Hc Hne [H|H]; [now apply Hne|].
  revert H. apply (calls_of_other_kind is_page_call); [|exact Hc].
  apply opening_page_events.
Qed.

(** The report that a run dumped, and where its loop sits in the trace. *)
Lemma audit_report_and_trace (routes : list TargetRoute) (report : Report) :
  In report (reports_dumped (trace (fst (audit env routes initial)))) ->
  let h := ok PlaywrightEnter
           :: fst (run_steps env [ok PlaywrightEnter] opening_steps) in
  report = report_of env h routes
  /\ exists tl,
       trace (fst (audit env routes initial))
       = h ++ crawl_events env h routes ++ tl.
Proof.
  cbv zeta. rewrite audit_cases.
  destruct (raises env [] PlaywrightEnter) as [e|];
    [intros H; cbn in H; destruct H|].
  cbv zeta.
  pose proof (opening_page_events env [ok PlaywrightEnter]) as Hopen.
  apply page_events_dump_nothing in Hopen.
  set (h := ok PlaywrightEnter
            :: fst (run_steps env [ok PlaywrightEnter] opening_steps)) in *.
  assert (Hh : reports_dumped h = []) by exact Hopen.
  destruct (snd (run_steps env [ok PlaywrightEnter] opening_steps)) as [e|].
  { cbn [fst trace]. rewrite reports_dumped_app, Hh. intros []. }
  cbn [fst trace].
  destruct (crawl_and_report_events env h routes) as (tl & -> & Htl).
  pose proof (crawl_events_page_events env routes h) as Hcrawl.
  apply page_events_dump_nothing in Hcrawl.
  rewrite !reports_dumped_app, Hh, Hcrawl, Htl. cbn [app].
  rewrite app_nil_r.
  intros Hin. split.
  - destruct (write_run_dumped env (h ++ crawl_events env h routes)
                               (report_of env h routes)) as [[Hw _]|Hw];
      rewrite Hw in Hin.
    + destruct Hin.
    + destruct Hin as [Hin|[]]. now symmetry.
  - eexists. rewrite <- !app_assoc. reflexivity.
Qed.


Lemma route_success_has_screenshot (h : list Event) (pg : TargetRoute) :
  is_success (route_entry env h pg) = true ->
  dict_get "screenshot" (route_entry env h pg)
  = Some (VStr (screenshot_path pg))
  /\ In (ok (Screenshot (screenshot_path pg) true)) (route_events env h pg)
  /\ In (ok Evaluate) (route_events env h pg).
Proof.
  unfold route_entry, route_events.
  destruct (snd (run_steps env h (route_steps env h pg))) as [e|] eqn:Hrun;
    [discriminate|].
  intros _. split; [reflexivity|].
  split; apply (run_steps_must_ok env _ h _ Hrun);
    unfold route_steps; destruct (session_lost _ pg);
    unfold recovery_steps, plain_steps, extract_steps;
    repeat (apply in_or_app; right); simpl; tauto.
Qed.

Lemma crawl_success_has_screenshot (routes : list TargetRoute)
      (h : list Event) (d : Dict) :
  In d (crawl_entries env h routes) ->
  is_success d = true ->
  exists pg,
    In pg routes
    /\ dict_get "name" d = Some (VStr (pg_name pg))
    /\ dict_get "screenshot" d = Some (VStr (screenshot_path pg))
    /\ In (ok (Screenshot (screenshot_path pg) true))
          (crawl_events env h routes)
    /\ In (ok Evaluate) (crawl_events env h routes).
Proof.
  revert h. induction routes as [|pg rest IH]; intros h Hin Hs;
    [contradiction|].
  cbn [crawl_entries crawl_events] in *. destruct Hin as [<-|Hin].
  - destruct (route_success_has_screenshot h pg Hs) as (H1 & H2 & H3).
    exists pg. repeat split; try (apply in_or_app; left; assumption).
    + now left.
    + apply route_entry_name.
    + exact H1.
  - destruct (IH _ Hin Hs) as (pg' & Hpg & Hn & H1 & H2 & H3).
    exists pg'. repeat split; try (apply in_or_app; right; assumption);
      try assumption. now right.
Qed.

Lemma crawl_and_report_tail (h : list Event) (routes : list TargetRoute) :
  exists tl,
    fst (crawl_and_report env h routes)
    = crawl_events env h routes
      ++ fst (write_run env (h ++ crawl_events env h routes)
                        (report_of env h routes))
      ++ tl
    /\ Forall (fun ev => ev_call ev = BrowserClose) tl
    /\ List.length tl <= 1.
Proof.
  unfold crawl_and_report.
  destruct (snd (write_run env _ _)); cbn [fst].
  - exists []. rewrite app_nil_r. repeat split; [constructor|simpl; lia].
  - eexists. repeat split; [repeat constructor|simpl; lia].
Qed.

End RunParts.

(** X14. [browser.close()] is called exactly when the scope was entered,
    the launch and the first login succeeded and the report was written
    and closed without error.  On every other path it is skipped, and the
    browser goes down with the exit of the Playwright scope only. *)
Theorem browser_close_called_iff (env : Env) (routes : list TargetRoute) :
  let o := run_steps env [ok PlaywrightEnter] opening_steps in
  let h := ok PlaywrightEnter :: fst o in
  let w := write_run env (h ++ crawl_events env h routes)
                     (report_of env h routes) in
  In BrowserClose (map ev_call (trace (fst (audit env routes initial))))
  <-> raises env [] PlaywrightEnter = None /\ snd o = None /\ snd w = None.
Proof.
  cbv zeta. rewrite audit_cases.
  destruct (raises env [] PlaywrightEnter) as [e|].
  { cbn [fst trace map ev_call failed]. split.
    - intros [H|[]]. discriminate.
    - intros (H & _). discriminate. }
  cbv zeta.
  set (h := ok PlaywrightEnter
            :: fst (run_steps env [ok PlaywrightEnter] opening_steps)).
  assert (Hh : ~ In BrowserClose (map ev_call h)).
  { apply opening_is_not_close; [reflexivity|discriminate]. }
  destruct (snd (run_steps env [ok PlaywrightEnter] opening_steps)) as [e|].
  { cbn [fst trace]. rewrite in_calls_app. split.
    - intros [H|[H|[]]]; [contradiction|discriminate].
    - intros (_ & H & _). discriminate. }
  cbn [fst trace]. unfold crawl_and_report.
  set (w := write_run env (h ++ crawl_events env h routes)
                      (report_of env h routes)).
  assert (Hc : ~ In BrowserClose (map ev_call (crawl_events env h routes))).
  { apply (calls_of_other_kind is_page_call); [|reflexivity].
    apply crawl_events_page_events. }
  assert (Hw : ~ In BrowserClose (map ev_call (fst w))).
  { apply (calls_of_other_kind is_report_call); [|reflexivity].
    apply write_run_report_calls. }
  destruct (snd w) as [e|]; cbn [fst].
  - rewrite !in_calls_app. split.
    + intros [[H|[H|H]]|[H|[]]]; try contradiction. discriminate.
    + intros (_ & _ & H). discriminate.
  - split; [tauto|]. intros _.
    rewrite !in_calls_app. left. right. right. right. now left.
Qed.

(** X15. The report is written once, after the loop: the trace of a run
    splits in two parts, the first without any call on the report file,
    the second without any call on the page; and at most one report is
    dumped. *)
Theorem report_is_written_after_all_routes
        (env : Env) (routes : list TargetRoute) :
  (exists before later,
      trace (fst (audit env routes initial)) = before ++ later
      /\ Forall (fun ev => is_report_call (ev_call ev) = false) before
      /\ Forall (fun ev => is_page_call (ev_call ev) = false) later)
  /\ List.length (reports_dumped (trace (fst (audit env routes initial)))) <= 1.
Proof.
  split.
  - rewrite audit_cases.
    destruct (raises env [] PlaywrightEnter) as [e|].
    { exists [failed PlaywrightEnter e], []. cbn [fst trace].
      repeat split; repeat constructor. }
    cbv zeta.
    set (h := ok PlaywrightEnter
              :: fst (run_steps env [ok PlaywrightEnter] opening_steps)).
    assert (Hh : Forall (fun ev => is_report_call (ev_call ev) = false) h).
    { constructor; [reflexivity|].
      pose proof (opening_page_events env [ok PlaywrightEnter]) as H.
      apply (page_events_weaken (fun c => negb (is_report_call c))) in H.
      - revert H. apply Forall_impl. intros ev. apply negb_true_iff.
      - intros c. destruct c; simpl; congruence. }
    destruct (snd (run_steps env [ok PlaywrightEnter] opening_steps)) as [e|].
    { exists h, [happened env h PlaywrightExit]. cbn [fst trace].
      repeat split; [exact Hh|repeat constructor]. }
    cbn [fst trace].
    destruct (crawl_and_report_tail env h routes) as (tl & -> & Htl & _).
    exists (h ++ crawl_events env h routes).
    eexists. split; [rewrite <- !app_assoc; reflexivity|]. split.
    + apply Forall_app. split; [exact Hh|].
      pose proof (crawl_events_page_events env routes h) as H.
      apply (page_events_weaken (fun c => negb (is_report_call c))) in H.
      * revert H. apply Forall_impl. intros ev. apply negb_true_iff.
      * intros c. destruct c; simpl; congruence.
    + unfold crawl_and_report in *.
      destruct (write_run_report_calls env (h ++ crawl_events env h routes)
                                       (report_of env h routes)) as [Hw _].
      apply Forall_app. split; [|apply Forall_app; split].
      * revert Hw. apply Forall_impl. intros ev.
        destruct (ev_call ev); simpl; congruence.
      * revert Htl. apply Forall_impl. intros ev ->. reflexivity.
      * repeat constructor.
  - destruct (audit_reports env routes) as [[-> _]|[h ->]]; simpl; lia.
Qed.

(** X16. The report only refers to screenshots that exist: for every
    success entry of a dumped report there is a route of the list with
    the entry's name whose screenshot path [./screenshots/<name>.png] is
    the entry's [screenshot], and the run made a successful screenshot
    call with that path and a successful query. *)
Theorem reported_screenshots_were_taken
        (env : Env) (routes : list TargetRoute) (report : Report) (d : Dict) :
  In report (reports_dumped (trace (fst (audit env routes initial)))) ->
  In d (r_pages report) ->
  is_success d = true ->
  exists pg,
    In pg routes
    /\ dict_get "name" d = Some (VStr (pg_name pg))
    /\ dict_get "screenshot" d
       = Some (VStr ("./screenshots/" ++ pg_name pg ++ ".png")%string)
    /\ In (ok (Screenshot ("./screenshots/" ++ pg_name pg ++ ".png")%string true))
          (trace (fst (audit env routes initial)))
    /\ In (ok Evaluate) (trace (fst (audit env routes initial))).
Proof.
  intros Hr Hd Hs.
  destruct (audit_report_and_trace env routes report Hr) as (-> & tl & ->).
  cbn [report_of r_pages] in Hd.
  destruct (crawl_success_has_screenshot env routes _ d Hd Hs)
    as (pg & Hpg & Hn & Hshot & Hin & Hq).
  exists pg. repeat split; try assumption;
    apply in_or_app; right; apply in_or_app; left; assumption.
Qed.

Lemma reported_screenshots_were_taken_witness :
  In (ok (Screenshot "./screenshots/02-orders.png" true))
     (trace (fst (audit dashboard_down two_routes initial))).
Proof.
  destruct (reported_screenshots_were_taken dashboard_down two_routes
              (report_of dashboard_down
                 (ok PlaywrightEnter
                  :: fst (run_steps dashboard_down [ok PlaywrightEnter]
                                    opening_steps))
                 two_routes)
              (route_entry dashboard_down
                 (ok PlaywrightEnter
                  :: fst (run_steps dashboard_down [ok PlaywrightEnter]
                                    opening_steps)
                  ++ route_events dashboard_down
                       (ok PlaywrightEnter
                        :: fst (run_steps dashboard_down [ok PlaywrightEnter]
                                          opening_steps))
                       dashboard)
                 orders))
    as (pg & Hpg & Hn & _ & Hshot & _).
  - vm_compute. left. reflexivity.
  - vm_compute. right. left. reflexivity.
  - vm_compute. reflexivity.
  - destruct Hpg as [<-|[<-|[]]].
    + vm_compute in Hn. discriminate Hn.
    + exact Hshot.
Defined.



(** X18. A run makes at most [21 + 22 * n] calls for [n] routes: one to
    enter the scope, 15 for the launch and the first login, 22 per route,
    three for the report file, [browser.close()] and the exit. *)
Theorem run_makes_bounded_calls (env : Env) (routes : list TargetRoute) :
  List.length (trace (fst (audit env routes initial)))
  <= 21 + 22 * List.length routes.
Proof.
  rewrite audit_cases.
  destruct (raises env [] PlaywrightEnter) as [e|]; [simpl; lia|].
  cbv zeta.
  pose proof (opening_length env [ok PlaywrightEnter]) as Hopen.
  destruct (snd (run_steps env [ok PlaywrightEnter] opening_steps)) as [e|].
  { cbn [fst trace]. rewrite length_app. cbn [List.length]. lia. }
  cbn [fst trace].
  set (h := ok PlaywrightEnter
            :: fst (run_steps env [ok PlaywrightEnter] opening_steps)) in *.
  destruct (crawl_and_report_tail env h routes) as (tl & -> & _ & Htl).
  destruct (write_run_report_calls env (h ++ crawl_events env h routes)
                                   (report_of env h routes)) as [_ Hw].
  pose proof (crawl_events_length env routes h) as Hc.
  assert (Hh : List.length h <= 16) by (unfold h; cbn [List.length]; lia).
  rewrite !length_app. cbn [List.length]. lia.
Qed.

Section SubstringFacts.

Local Open Scope string_scope.

Lemma py_startswith_iff (p s : string) :
  py_startswith p s = true <-> exists b, s = p ++ b.
Proof.
  revert s. induction p as [|a p IH]; intros s.
  - simpl. split; [intros _; now exists s|reflexivity].
  - destruct s as [|c s]; simpl.
    + split; [discriminate|intros [b H]; discriminate].
    + rewrite andb_true_iff, IH, Ascii.eqb_eq. split.
      * intros [-> [b ->]]. now exists b.
      * intros [b H]. injection H as -> ->. split; [reflexivity|now exists b].
Qed.

Lemma py_in_step (sub s : string) :
  py_in sub s
  = py_startswith sub s
    || match s with EmptyString => false | String _ s' => py_in sub s' end.
Proof. destruct s; reflexivity. Qed.

Lemma py_in_iff (sub s : string) :
  py_in sub s = true <-> exists a b, s = a ++ sub ++ b.
Proof.
  split.
  - induction s as [|c s IH]; rewrite py_in_step, orb_true_iff.
    + intros [H|H]; [|discriminate].
      apply py_startswith_iff in H as [b ->]. now exists "", b.
    + intros [H|H].
      * apply py_startswith_iff in H as [b ->]. now exists "", b.
      * destruct (IH H) as (a & b & ->). now exists (String c a), b.
  - intros (a & b & ->). induction a as [|c a IH].
    + rewrite py_in_step, orb_true_iff. left.
      apply py_startswith_iff. now exists b.
    + simpl append. rewrite py_in_step, orb_true_iff. right. exact IH.
Qed.

End SubstringFacts.

(** X19. The session is taken as lost exactly when the text [login]
    occurs somewhere in the URL reached and nowhere in the route's path;
    the test is by plain, case-sensitive substring. *)
Theorem session_lost_iff (actual : string) (pg : TargetRoute) :
  session_lost actual pg = true
  <-> (exists a b, actual = (a ++ "login" ++ b)%string)
      /\ ~ (exists a b, pg_path pg = (a ++ "login" ++ b)%string).
Proof.
  unfold session_lost, login_surface.
  rewrite andb_true_iff, negb_true_iff, py_in_iff.
  split; intros [H1 H2]; split; try exact H1.
  - intros H. apply py_in_iff in H. congruence.
  - destruct (py_in "login" (pg_path pg)) eqn:E; [|reflexivity].
    exfalso. apply H2. now apply py_in_iff.
Qed.

(** The test looks at the letters as they are: [/Login] is no login
    surface, [/relogin-help] is one. *)
Example login_surface_is_case_sensitive :
  login_surface "https://splitfin.co.uk/Login" = false
  /\ login_surface "https://splitfin.co.uk/relogin-help" = true
  /\ session_lost "https://splitfin.co.uk/login?next=/orders" orders = true.
Proof. repeat split. Qed.

Section RecoveryFacts.

Variable env : Env.

(** The iteration of a route found on a login surface, as one script. *)
Lemma session_loss_recovered_once_script (pg : TargetRoute) (st : State) :
  snd (run_steps env (trace st) (arrive_steps pg)) = None ->
  session_lost
    (page_url env (trace st ++ fst (run_steps env (trace st) (arrive_steps pg))))
    pg = true ->
  process_route env pg st
  = ({| trace := trace st
                 ++ fst (run_steps env (trace st)
                           (arrive_steps pg ++ login_steps
                            ++ arrive_steps pg ++ extract_steps pg));
        results :=
          results st
          ++ [ match snd (run_steps env (trace st)
                            (arrive_steps pg ++ login_steps
                             ++ arrive_steps pg ++ extract_steps pg)) with
               | None =>
                   success_entry pg
                     (page_url env
                        (trace st
                         ++ fst (run_steps env (trace st)
                                   (arrive_steps pg ++ login_steps
                                    ++ arrive_steps pg ++ extract_steps pg))))
                     (screenshot_path pg)
                     (capture_structure
                        (document env
                           (trace st
                            ++ fst (run_steps env (trace st)
                                      (arrive_steps pg ++ login_steps
                                       ++ arrive_steps pg ++ extract_steps pg)))))
               | Some e => failure_entry pg e
               end ] |},
     Returned tt).
Proof.
  intros _ Hlost.
  rewrite process_route_run. unfold route_entry, route_events, route_steps.
  rewrite Hlost. reflexivity.
Qed.

End RecoveryFacts.

(** X20. A login that fails during session-loss recovery costs the route
    only: the iteration stops at the failing call, makes no second
    navigation, takes no screenshot, appends the failure entry with the
    message of that exception and returns normally, so the loop goes on. *)
Theorem failed_recovery_fails_only_the_route
        (env : Env) (pg : TargetRoute) (st : State) (e : PyException) :
  let arrived := fst (run_steps env (trace st) (arrive_steps pg)) in
  let relogin := run_steps env (trace st ++ arrived) login_steps in
  snd (run_steps env (trace st) (arrive_steps pg)) = None ->
  session_lost (page_url env (trace st ++ arrived)) pg = true ->
  snd relogin = Some e ->
  process_route env pg st
  = ({| trace := trace st ++ arrived ++ fst relogin;
        results := results st ++ [failure_entry pg e] |}, Returned tt).
Proof.
  cbv zeta. intros Harr Hlost Hlogin.
  rewrite (session_loss_recovered_once_script env pg st Harr Hlost).
  rewrite run_steps_app, Harr. cbn [fst snd].
  rewrite run_steps_app, Hlogin. cbn [fst snd]. reflexivity.
Qed.

Lemma failed_recovery_fails_only_the_route_witness :
  exists st',
    process_route login_form_gone dashboard initial = (st', Returned tt)
    /\ map (dict_get "error") (results st')
       = [Some (VStr "Page.fill: Timeout 30000ms exceeded.")]
    /\ List.length (trace st') = 10.
Proof.
  eexists. split.
  - apply (failed_recovery_fails_only_the_route login_form_gone dashboard
             initial (timeout_error "Page.fill: Timeout 30000ms exceeded."));
      reflexivity.
  - vm_compute. split; reflexivity.
Defined.

(** X21. Routes are processed strictly one after the other: looping over
    [r1 ++ r2] is looping over [r1] and then, from the state that leaves,
    over [r2]; nothing of [r2] happens before [r1] is done and the loop
    over [r1] cannot stop the one over [r2]. *)
Theorem routes_are_processed_in_sequence
        (env : Env) (r1 r2 : list TargetRoute) (st : State) :
  for_each (r1 ++ r2) (process_route env) st
  = for_each r2 (process_route env)
             (fst (for_each r1 (process_route env) st))
  /\ snd (for_each r1 (process_route env) st) = Returned tt.
Proof.
  split; [|now rewrite for_each_run].
  revert st. induction r1 as [|pg r1 IH]; intros st; [reflexivity|].
  cbn [app for_each]. unfold bind.
  rewrite process_route_run. apply IH.
Qed.
